(** * Contacts REST backend: authentication flows and owner-scoped contacts

    A shallow embedding of [src/entity/models.py], [src/repository/users.py],
    [src/repository/contacts.py], [src/routes/auth.py] and
    [src/routes/contacts.py].

    The relational store is a record of three tables (lists of rows) and
    their id sequences.  A route handler is a computation in a small
    state-and-exception monad over the store: a raised exception keeps the
    rows committed before it was raised, as [db.commit()] has already run.
    Every handler receives the clock reading [now] of its request
    ([datetime.utcnow()] and the store's [func.now()]). *)

From Stdlib Require Import ZArith List String Ascii Bool Lia.
Import ListNotations.

Open Scope string_scope.
Open Scope Z_scope.

(* ------------------------------------------------------------------ *)
(** ** Python and SQL values *)

Definition option_eqb {A} (eqb : A -> A -> bool) (x y : option A) : bool :=
  match x, y with
  | Some a, Some b => eqb a b
  | None, None => true
  | _, _ => false
  end.

(** [str.lower()] / SQL [lower()], on the ASCII letters. *)
Definition lower_ascii (c : ascii) : ascii :=
  let n := nat_of_ascii c in
  if andb (Nat.leb 65 n) (Nat.leb n 90) then ascii_of_nat (n + 32) else c.

Fixpoint lower (s : string) : string :=
  match s with
  | EmptyString => EmptyString
  | String c r => String (lower_ascii c) (lower r)
  end.

(** [datetime.date]: the proleptic Gregorian calendar. *)
Module date.
Record t := mk { year : Z; month : Z; day : Z }.

Definition is_leap (y : Z) : bool :=
    andb (y mod 4 =? 0) (orb (negb (y mod 100 =? 0)) (y mod 400 =? 0)).

Definition days_in_month (y m : Z) : Z :=
    if m =? 2 then (if is_leap y then 29 else 28)
    else if orb (orb (m =? 4) (m =? 6)) (orb (m =? 9) (m =? 11)) then 30
    else 31.

Definition valid (d : t) : Prop :=
    1 <= month d <= 12 /\ 1 <= day d <= days_in_month (year d) (month d).

Definition next_day (d : t) : t :=
    if day d <? days_in_month (year d) (month d)
    then mk (year d) (month d) (day d + 1)
    else if month d <? 12 then mk (year d) (month d + 1) 1
    else mk (year d + 1) 1 1.

  (** [d + timedelta(days=n)] for [n >= 0]. *)
Fixpoint add_days (n : nat) (d : t) : t :=
    match n with
    | O => d
    | S k => add_days k (next_day d)
    end.
End date.

(* ------------------------------------------------------------------ *)
(** ** src/entity/models.py *)

Module Role.
Inductive t := admin | moderator | user.
End Role.

Module User.
Record t := mk {
    id : Z;
    username : string;
    email : string;
    password : string;
    avatar : option string;
    refresh_token : option string;
    created_at : Z;
    updated_at : Z;
    role : option Role.t;
    confirmed : bool
  }.

Definition set_refresh_token (u : t) (v : option string) : t :=
    mk (id u) (username u) (email u) (password u) (avatar u) v
       (created_at u) (updated_at u) (role u) (confirmed u).
Definition set_password (u : t) (v : string) : t :=
    mk (id u) (username u) (email u) v (avatar u) (refresh_token u)
       (created_at u) (updated_at u) (role u) (confirmed u).
Definition set_confirmed (u : t) (v : bool) : t :=
    mk (id u) (username u) (email u) (password u) (avatar u) (refresh_token u)
       (created_at u) (updated_at u) (role u) v.
Definition set_updated_at (u : t) (v : Z) : t :=
    mk (id u) (username u) (email u) (password u) (avatar u) (refresh_token u)
       (created_at u) v (role u) (confirmed u).
End User.

Module Contact.
Record t := mk {
    id : Z;
    first_name : string;
    last_name : string;
    email : string;
    phone_number : string;
    birthday : date.t;
    created_at : option Z;
    updated_at : option Z;
    user_id : option Z
  }.
End Contact.

Module PasswordResetToken.
Record t := mk {
    id : Z;
    email : string;
    token : string;
    expiration : Z
  }.
End PasswordResetToken.

(** The store behind an [AsyncSession]: the three tables of [models.py] and
    the sequences that hand out their primary keys. *)
Record Store := mkStore {
  users : list User.t;
  contacts : list Contact.t;
  password_reset_tokens : list PasswordResetToken.t;
  users_id_seq : Z;
  contacts_id_seq : Z;
  password_reset_tokens_id_seq : Z
}.

Definition with_users (s : Store) (us : list User.t) : Store :=
  mkStore us (contacts s) (password_reset_tokens s)
          (users_id_seq s) (contacts_id_seq s) (password_reset_tokens_id_seq s).
Definition with_contacts (s : Store) (cs : list Contact.t) : Store :=
  mkStore (users s) cs (password_reset_tokens s)
          (users_id_seq s) (contacts_id_seq s) (password_reset_tokens_id_seq s).
Definition with_password_reset_tokens (s : Store) (ts : list PasswordResetToken.t) : Store :=
  mkStore (users s) (contacts s) ts
          (users_id_seq s) (contacts_id_seq s) (password_reset_tokens_id_seq s).

Definition empty_store : Store := mkStore [] [] [] 1 1 1.

(** The constraints [models.py] declares: primary keys, [unique=True]
    columns, and keys below the next value of their sequence. *)
Record wf_store (s : Store) : Prop := {
  wf_user_id : NoDup (map User.id (users s));
  wf_user_email : NoDup (map User.email (users s));
  wf_user_seq : forall u, In u (users s) -> User.id u < users_id_seq s;
  wf_contact_id : NoDup (map Contact.id (contacts s));
  wf_contact_email : NoDup (map Contact.email (contacts s));
  wf_contact_phone : NoDup (map Contact.phone_number (contacts s));
  wf_contact_seq : forall c, In c (contacts s) -> Contact.id c < contacts_id_seq s;
  wf_token_id : NoDup (map PasswordResetToken.id (password_reset_tokens s));
  wf_token_token : NoDup (map PasswordResetToken.token (password_reset_tokens s));
  wf_token_seq : forall r, In r (password_reset_tokens s) ->
                           PasswordResetToken.id r < password_reset_tokens_id_seq s
}.

(* ------------------------------------------------------------------ *)
(** ** Exceptions and the handler monad *)

(** The [detail] of an [HTTPException]: a constant of [src.conf.messages]
    (that module is not part of the sources at hand, so a constant stands
    for itself) or a string literal of the route. *)
Inductive detail :=
| ACCOUNT_EXIST
| INVALID_EMAIL
| EMAIL_NOT_CONFIRMED
| INVALID_PASSWORD
| INVALID_REFRESH_TOKEN
| VERIFICATION_ERROR
| EMAIL_NOT_FOUND
| INVALID_OR_EXPIRED_TOKEN
| USER_NOT_FOUND
| Literal (text : string).

Inductive exn :=
| HTTPException (status_code : Z) (d : detail)
| AttributeError (attr : string)      (* attribute access on [None] *)
| MultipleResultsFound                 (* [scalar_one_or_none] on several rows *)
| IntegrityError                       (* a unique constraint refused a commit *)
| RequestValidationError.              (* a [Query]/[Path] bound refused the request *)

Definition HTTP_401_UNAUTHORIZED := 401.
Definition HTTP_404_NOT_FOUND := 404.
Definition HTTP_409_CONFLICT := 409.
Definition HTTP_400_BAD_REQUEST := 400.

Definition M (A : Type) : Type := Store -> (exn + A) * Store.

Definition ret {A} (a : A) : M A := fun s => (inr a, s).
Definition raise {A} (e : exn) : M A := fun s => (inl e, s).
Definition bind {A B} (c : M A) (k : A -> M B) : M B :=
  fun s => match c s with
           | (inr a, s') => k a s'
           | (inl e, s') => (inl e, s')
           end.
Definition get : M Store := fun s => (inr s, s).
Definition put (s : Store) : M unit := fun _ => (inr tt, s).
(** [try: c except Exception as e: h e] *)
Definition try_except {A} (c : M A) (h : exn -> M A) : M A :=
  fun s => match c s with
           | (inl e, s') => h e s'
           | r => r
           end.
Definition lift {A} (r : exn + A) : M A := fun s => (r, s).

Declare Scope monad_scope.
Delimit Scope monad_scope with monad.
Notation "x <- c ;; k" := (bind c (fun x => k))
  (at level 61, c at next level, right associativity) : monad_scope.
Notation "c ;;; k" := (bind c (fun _ => k))
  (at level 61, right associativity) : monad_scope.
Open Scope monad_scope.

(** [result.scalar_one_or_none()] *)
Definition scalar_one_or_none {A} (rows : list A) : M (option A) :=
  match rows with
  | [] => ret None
  | [r] => ret (Some r)
  | _ => raise MultipleResultsFound
  end.

(** [result.scalar()]: the first row, or [None]. *)
Definition scalar {A} (rows : list A) : option A :=
  match rows with
  | [] => None
  | r :: _ => Some r
  end.

(* ------------------------------------------------------------------ *)
(** ** Collaborators that are called but not defined in the sources *)

(** [src.services.auth.auth_service], as the routes call it.  The two
    token constructors read the clock of the request (issue and expiry
    claims); decoding is taken as a function of the presented token, which
    either carries a subject or is refused with the service's exception. *)
Class AuthService := {
  get_password_hash : string -> string;
  verify_password : string -> string -> bool;
  create_access_token : Z -> string -> string;
  create_refresh_token : Z -> string -> string;
  decode_refresh_token : string -> exn + string;
  get_email_from_token : string -> exn + string;
  generate_reset_token : Z -> string   (* from the request's random draw *)
}.

(** [libgravatar.Gravatar(email).get_image()]; [None] when it raises. *)
Class Gravatar := { get_image : string -> option string }.

(** Work handed to [BackgroundTasks.add_task]; it runs after the response. *)
Inductive task :=
| send_email (email username host : string)
| send_password_reset_email (email token : string).

(** [src.schemas.user]: the request and response bodies the routes use,
    with the fields the routes and the tests read and write. *)
Module UserSchema.
Record t := mk { username : string; email : string; password : string }.
Definition set_password (b : t) (v : string) : t := mk (username b) (email b) v.
End UserSchema.

Module TokenSchema.
Record t := mk { access_token : string; refresh_token : string; token_type : string }.
End TokenSchema.

(* ------------------------------------------------------------------ *)
(** ** src/repository/users.py *)

Module repositories_users.

Definition get_user_by_email (email : string) : M (option User.t) :=
    s <- get ;;
    scalar_one_or_none (filter (fun u => String.eqb (User.email u) email) (users s)).

  (** The unit of work at [db.commit()] for a loaded [User]: an UPDATE of
      the row with the object's primary key, issued when an attribute
      changed, which also fires [onupdate=func.now()] of [updated_at]. *)
Definition flush_row (uid : Z) (unchanged : User.t -> bool)
             (write : User.t -> User.t) (now : Z) (r : User.t) : User.t :=
    if User.id r =? uid
    then (if unchanged r then r else User.set_updated_at (write r) now)
    else r.

Definition flush_user (uid : Z) (unchanged : User.t -> bool)
             (write : User.t -> User.t) (now : Z) : M unit :=
    s <- get ;;
    put (with_users s (map (flush_row uid unchanged write now) (users s))).

Section create.
Context `{Gravatar}.

Definition create_user (body : UserSchema.t) (now : Z) : M User.t :=
      let avatar := get_image (UserSchema.email body) in
      s <- get ;;
      if existsb (fun u => String.eqb (User.email u) (UserSchema.email body)) (users s)
      then raise IntegrityError
      else
        let new_user :=
          User.mk (users_id_seq s) (UserSchema.username body) (UserSchema.email body)
                  (UserSchema.password body) avatar None now now
                  (Some Role.user) false in
        put (mkStore (users s ++ [new_user]) (contacts s) (password_reset_tokens s)
                     (users_id_seq s + 1) (contacts_id_seq s)
                     (password_reset_tokens_id_seq s)) ;;;
        ret new_user.
End create.

Definition update_token (user : User.t) (token : option string) (now : Z) : M unit :=
    flush_user (User.id user)
               (fun r => option_eqb String.eqb (User.refresh_token r) token)
               (fun r => User.set_refresh_token r token) now.

Definition confirmed_email (email : string) (now : Z) : M unit :=
    user <- get_user_by_email email ;;
    match user with
    | None => raise (AttributeError "confirmed")
    | Some user =>
        flush_user (User.id user)
                   (fun r => Bool.eqb (User.confirmed r) true)
                   (fun r => User.set_confirmed r true) now
    end.


End repositories_users.

(* ------------------------------------------------------------------ *)
(** ** src/routes/auth.py *)

Module routes_auth.
Section routes.
Context `{AuthService} `{Gravatar}.

Definition signup (body : UserSchema.t) (base_url : string) (now : Z)
    : M (User.t * list task) :=
    exist_user <- repositories_users.get_user_by_email (UserSchema.email body) ;;
    match exist_user with
    | Some _ => raise (HTTPException HTTP_409_CONFLICT ACCOUNT_EXIST)
    | None =>
        let body := UserSchema.set_password body
                      (get_password_hash (UserSchema.password body)) in
        new_user <- try_except (repositories_users.create_user body now)
                      (fun _ => raise (HTTPException 500
                                         (Literal "Помилка створення користувача"))) ;;
        ret (new_user,
             [send_email (User.email new_user) (User.username new_user) base_url])
    end.

Definition login (username password : string) (now : Z) : M TokenSchema.t :=
    user <- repositories_users.get_user_by_email username ;;
    match user with
    | None => raise (HTTPException HTTP_401_UNAUTHORIZED INVALID_EMAIL)
    | Some user =>
        if negb (User.confirmed user)
        then raise (HTTPException HTTP_401_UNAUTHORIZED EMAIL_NOT_CONFIRMED)
        else if negb (verify_password password (User.password user))
        then raise (HTTPException HTTP_401_UNAUTHORIZED INVALID_PASSWORD)
        else
          let access_token := create_access_token now (User.email user) in
          let refresh_token := create_refresh_token now (User.email user) in
          repositories_users.update_token user (Some refresh_token) now ;;;
          ret (TokenSchema.mk access_token refresh_token "bearer")
    end.

Definition refresh_token (token : string) (now : Z) : M TokenSchema.t :=
    email <- lift (decode_refresh_token token) ;;
    user <- repositories_users.get_user_by_email email ;;
    match user with
    | None => raise (AttributeError "refresh_token")
    | Some user =>
        if negb (option_eqb String.eqb (User.refresh_token user) (Some token))
        then
          repositories_users.update_token user None now ;;;
          raise (HTTPException HTTP_401_UNAUTHORIZED INVALID_REFRESH_TOKEN)
        else
          let access_token := create_access_token now email in
          let refresh_token := create_refresh_token now email in
          repositories_users.update_token user (Some refresh_token) now ;;;
          ret (TokenSchema.mk access_token refresh_token "bearer")
    end.

Definition confirmed_email (token : string) (now : Z) : M string :=
    email <- lift (get_email_from_token token) ;;
    user <- repositories_users.get_user_by_email email ;;
    match user with
    | None => raise (HTTPException HTTP_400_BAD_REQUEST VERIFICATION_ERROR)
    | Some user =>
        if User.confirmed user then ret "Your email is already confirmed"
        else
          repositories_users.confirmed_email email now ;;;
          ret "Email confirmed"
    end.

Definition request_email (email : string) (base_url : string)
    : M (string * list task) :=
    user <- repositories_users.get_user_by_email email ;;
    match user with
    | None => raise (AttributeError "confirmed")     (* [user.confirmed] comes first *)
    | Some user =>
        if User.confirmed user then ret ("Your email is already confirmed", [])
        else
          (* [if user:] holds here *)
          ret ("Check your email for confirmation.",
               [send_email (User.email user) (User.username user) base_url])
    end.

Definition password_reset_request (email : string) (draw : Z) (now : Z)
    : M (string * list task) :=
    user <- repositories_users.get_user_by_email email ;;
    match user with
    | None => raise (HTTPException HTTP_404_NOT_FOUND EMAIL_NOT_FOUND)
    | Some _ =>
        let token := generate_reset_token draw in
        let expiration := now + 3600 in
        s <- get ;;
        if existsb (fun r => String.eqb (PasswordResetToken.token r) token)
                   (password_reset_tokens s)
        then raise IntegrityError
        else
          let db_token := PasswordResetToken.mk (password_reset_tokens_id_seq s)
                                                email token expiration in
          put (mkStore (users s) (contacts s) (password_reset_tokens s ++ [db_token])
                       (users_id_seq s) (contacts_id_seq s)
                       (password_reset_tokens_id_seq s + 1)) ;;;
          ret ("Password reset link has been sent to your email.",
               [send_password_reset_email email token])
    end.

Definition reset_password (token new_password : string) (now : Z) : M string :=
    s <- get ;;
    let db_token := scalar (filter (fun r => String.eqb (PasswordResetToken.token r) token)
                                   (password_reset_tokens s)) in
    match db_token with
    | None => raise (HTTPException HTTP_400_BAD_REQUEST INVALID_OR_EXPIRED_TOKEN)
    | Some db_token =>
        if PasswordResetToken.expiration db_token <? now
        then raise (HTTPException HTTP_400_BAD_REQUEST INVALID_OR_EXPIRED_TOKEN)
        else
          let user := scalar (filter (fun u => String.eqb (User.email u)
                                                 (PasswordResetToken.email db_token))
                                     (users s)) in
          match user with
          | None => raise (HTTPException HTTP_404_NOT_FOUND USER_NOT_FOUND)
          | Some user =>
              let hashed := get_password_hash new_password in
              repositories_users.flush_user (User.id user)
                (fun r => String.eqb (User.password r) hashed)
                (fun r => User.set_password r hashed) now ;;;
              s1 <- get ;;
              put (with_password_reset_tokens s1
                     (filter (fun r => negb (PasswordResetToken.id r =?
                                              PasswordResetToken.id db_token))
                             (password_reset_tokens s1))) ;;;
              ret "Password has been reset successfully."
          end
    end.

End routes.
End routes_auth.

(* ------------------------------------------------------------------ *)
(** ** src/schemas/contact.py and src/repository/contacts.py *)

Module ContactSchema.
Record t := mk {
    first_name : string;
    last_name : string;
    email : string;
    phone_number : string;
    birthday : date.t
  }.
End ContactSchema.

Definition date_eqb (a b : date.t) : bool :=
  (date.year a =? date.year b) && (date.month a =? date.month b)
  && (date.day a =? date.day b).

Module repository_contacts.

  (** [filter_by(user=user)] and [Contact.user_id == user.id] *)
Definition owned_by (user : User.t) (c : Contact.t) : bool :=
    option_eqb Z.eqb (Contact.user_id c) (Some (User.id user)).

Definition get_contacts (offset limit : Z) (user : User.t) : M (list Contact.t) :=
    s <- get ;;
    ret (firstn (Z.to_nat limit)
                (skipn (Z.to_nat offset) (filter (owned_by user) (contacts s)))).

Definition get_contact_id (contact_id : Z) (user : User.t) : M (option Contact.t) :=
    s <- get ;;
    scalar_one_or_none
      (filter (fun c => (Contact.id c =? contact_id) && owned_by user c) (contacts s)).

Definition get_contact_first_name (contact_first_name : string) (user : User.t)
    : M (list Contact.t) :=
    s <- get ;;
    ret (filter (fun c => String.eqb (lower (Contact.first_name c))
                                     (lower contact_first_name)
                          && owned_by user c) (contacts s)).

Definition get_contact_last_name (contact_last_name : string) (user : User.t)
    : M (list Contact.t) :=
    s <- get ;;
    ret (filter (fun c => String.eqb (lower (Contact.last_name c))
                                     (lower contact_last_name)
                          && owned_by user c) (contacts s)).

Definition get_contact_email (contact_email : string) (user : User.t) : M Contact.t :=
    s <- get ;;
    contact <- scalar_one_or_none
                 (filter (fun c => String.eqb (lower (Contact.email c))
                                              (lower contact_email)
                                   && owned_by user c) (contacts s)) ;;
    match contact with
    | None => raise (HTTPException HTTP_404_NOT_FOUND (Literal "Contact not found"))
    | Some contact => ret contact
    end.

  (** The WHERE clause of [get_contact_birthday] on the birthday column. *)
Definition birthday_in_window (today seven_days_later b : date.t) : bool :=
    ((date.month b =? date.month today) && (date.day b >=? date.day today))
    || ((date.month b =? date.month seven_days_later)
        && (date.day b <=? date.day seven_days_later)).

Definition get_contact_birthday (today : date.t) (user : User.t) : M (list Contact.t) :=
    let seven_days_later := date.add_days 7 today in
    s <- get ;;
    ret (filter (fun c => owned_by user c
                          && birthday_in_window today seven_days_later
                                                (Contact.birthday c))
                (contacts s)).

Definition create_contact (body : ContactSchema.t) (user : User.t) (now : Z)
    : M Contact.t :=
    s <- get ;;
    if existsb (fun c => String.eqb (Contact.email c) (ContactSchema.email body)
                         || String.eqb (Contact.phone_number c)
                                       (ContactSchema.phone_number body))
               (contacts s)
    then raise IntegrityError
    else
      let contact :=
        Contact.mk (contacts_id_seq s) (ContactSchema.first_name body)
                   (ContactSchema.last_name body) (ContactSchema.email body)
                   (ContactSchema.phone_number body) (ContactSchema.birthday body)
                   (Some now) (Some now) (Some (User.id user)) in
      put (mkStore (users s) (contacts s ++ [contact]) (password_reset_tokens s)
                   (users_id_seq s) (contacts_id_seq s + 1)
                   (password_reset_tokens_id_seq s)) ;;;
      ret contact.

  (** The five assignments of [update_contact] leave the row as it is. *)
Definition same_fields (c : Contact.t) (body : ContactSchema.t) : bool :=
    String.eqb (Contact.first_name c) (ContactSchema.first_name body)
    && String.eqb (Contact.last_name c) (ContactSchema.last_name body)
    && String.eqb (Contact.email c) (ContactSchema.email body)
    && String.eqb (Contact.phone_number c) (ContactSchema.phone_number body)
    && date_eqb (Contact.birthday c) (ContactSchema.birthday body).

Definition assign (c : Contact.t) (body : ContactSchema.t) (now : Z) : Contact.t :=
    Contact.mk (Contact.id c) (ContactSchema.first_name body)
               (ContactSchema.last_name body) (ContactSchema.email body)
               (ContactSchema.phone_number body) (ContactSchema.birthday body)
               (Contact.created_at c) (Some now) (Contact.user_id c).

Definition update_contact (contact_id : Z) (body : ContactSchema.t) (user : User.t)
             (now : Z) : M (option Contact.t) :=
    s <- get ;;
    contact <- scalar_one_or_none
                 (filter (fun c => (Contact.id c =? contact_id) && owned_by user c)
                         (contacts s)) ;;
    match contact with
    | None => ret None
    | Some contact =>
        if same_fields contact body then ret (Some contact)
        else if existsb (fun c => negb (Contact.id c =? Contact.id contact)
                                  && (String.eqb (Contact.email c) (ContactSchema.email body)
                                      || String.eqb (Contact.phone_number c)
                                                    (ContactSchema.phone_number body)))
                        (contacts s)
        then raise IntegrityError
        else
          put (with_contacts s
                 (map (fun c => if Contact.id c =? Contact.id contact
                                then assign c body now else c)
                      (contacts s))) ;;;
          ret (Some (assign contact body now))
    end.

Definition remove_contact (contact_id : Z) (user : User.t) : M (option Contact.t) :=
    s <- get ;;
    contact <- scalar_one_or_none
                 (filter (fun c => (Contact.id c =? contact_id) && owned_by user c)
                         (contacts s)) ;;
    match contact with
    | None => ret None
    | Some contact =>
        put (with_contacts s
               (filter (fun c => negb (Contact.id c =? Contact.id contact))
                       (contacts s))) ;;;
        ret (Some contact)
    end.

End repository_contacts.

(* ------------------------------------------------------------------ *)
(** ** src/routes/contacts.py

    [user] is the result of the [auth_service.get_current_user] dependency;
    the rate limiter of each route is outside this model. *)

Module routes_contacts.

Definition not_found {A} : M A :=
    raise (HTTPException HTTP_404_NOT_FOUND (Literal "Contact not found")).

Definition read_all_contacts (limit offset : Z) (user : User.t) : M (list Contact.t) :=
    if (limit <? 10) || (500 <? limit) || (offset <? 0)
    then raise RequestValidationError
    else repository_contacts.get_contacts offset limit user.

Definition read_birthday (today : date.t) (user : User.t) : M (list Contact.t) :=
    repository_contacts.get_contact_birthday today user.

Definition read_by_contact_id (contact_id : Z) (user : User.t) : M Contact.t :=
    if contact_id <? 1 then raise RequestValidationError
    else
      contact <- repository_contacts.get_contact_id contact_id user ;;
      match contact with
      | None => not_found
      | Some contact => ret contact
      end.

Definition read_contact_first_name (contact_first_name : string) (user : User.t)
    : M (list Contact.t) :=
    contacts <- repository_contacts.get_contact_first_name contact_first_name user ;;
    match contacts with
    | [] => not_found
    | _ => ret contacts
    end.

Definition read_contact_last_name (contact_last_name : string) (user : User.t)
    : M (list Contact.t) :=
    contacts <- repository_contacts.get_contact_last_name contact_last_name user ;;
    match contacts with
    | [] => not_found
    | _ => ret contacts
    end.

Definition read_contact_email (contact_email : string) (user : User.t) : M Contact.t :=
    repository_contacts.get_contact_email contact_email user.

Definition create_contact (body : ContactSchema.t) (user : User.t) (now : Z)
    : M Contact.t :=
    repository_contacts.create_contact body user now.

Definition update_contact (body : ContactSchema.t) (contact_id : Z) (user : User.t)
             (now : Z) : M Contact.t :=
    if contact_id <? 1 then raise RequestValidationError
    else
      contact <- repository_contacts.update_contact contact_id body user now ;;
      match contact with
      | None => not_found
      | Some contact => ret contact
      end.

Definition remove_contact (contact_id : Z) (user : User.t) : M unit :=
    if contact_id <? 1 then raise RequestValidationError
    else
      contact <- repository_contacts.remove_contact contact_id user ;;
      match contact with
      | None => not_found
      | Some _ => ret tt
      end.

End routes_contacts.

(* ------------------------------------------------------------------ *)
(** ** A concrete deployment, for running the handlers *)

Module demo.

  (** The part of a token before its first ['#']. *)
Fixpoint subject_of (t : string) : string :=
    match t with
    | EmptyString => EmptyString
    | String c r => if Ascii.eqb c "#"%char then EmptyString
                    else String c (subject_of r)
    end.

Definition stamp (now : Z) : string :=
    if now <? 10 then "early" else if now <? 100 then "mid" else "late".

Definition decode (t : string) : exn + string :=
    match subject_of t with
    | EmptyString => inl (HTTPException HTTP_401_UNAUTHORIZED
                                        (Literal "Could not validate credentials"))
    | e => inr e
    end.

#[export] Instance service : AuthService := {|
    get_password_hash := fun p => "hash(" ++ p ++ ")";
    verify_password := fun p h => String.eqb ("hash(" ++ p ++ ")") h;
    create_access_token := fun now e => e ++ "#access#" ++ stamp now;
    create_refresh_token := fun now e => e ++ "#refresh#" ++ stamp now;
    decode_refresh_token := decode;
    get_email_from_token := decode;
    generate_reset_token := fun draw => if draw =? 0 then "reset-0" else "reset-n"
  |}.

#[export] Instance gravatar : Gravatar := {| get_image := fun _ => None |}.

Definition alice : User.t :=
    User.mk 1 "alice" "alice@example.com" "hash(secret)" None
            (Some "alice@example.com#refresh#early") 5 5 (Some Role.user) true.

Definition bob : User.t :=
    User.mk 2 "bob" "bob@example.com" "hash(hunter2)" None None 6 6
            (Some Role.user) false.

Definition alice_reset : PasswordResetToken.t :=
    PasswordResetToken.mk 1 "alice@example.com" "reset-0" 100.

Definition ghost_reset : PasswordResetToken.t :=
    PasswordResetToken.mk 2 "ghost@example.com" "reset-ghost" 100.

Definition may_11 : Contact.t :=
    Contact.mk 1 "May" "Eleven" "may11@example.com" "111"
               (date.mk 1990 5 11) (Some 5) (Some 5) (Some 1).

Definition may_4 : Contact.t :=
    Contact.mk 2 "May" "Four" "may4@example.com" "222"
               (date.mk 1985 5 4) (Some 5) (Some 5) (Some 1).

Definition bobs : Contact.t :=
    Contact.mk 3 "Bobs" "Friend" "friend@example.com" "333"
               (date.mk 1970 5 4) (Some 6) (Some 6) (Some 2).

Definition store : Store :=
    mkStore [alice; bob] [may_11; may_4; bobs] [alice_reset; ghost_reset] 3 4 3.

(** A second, unexpired reset row for alice. *)
Definition alice_reset_again : PasswordResetToken.t :=
    PasswordResetToken.mk 3 "alice@example.com" "reset-again" 200.

Definition store_two_resets : Store :=
    mkStore [alice; bob] [may_11; may_4; bobs]
            [alice_reset; ghost_reset; alice_reset_again] 3 4 4.




End demo.

(* ------------------------------------------------------------------ *)
(** ** Sequences of requests *)


(** The store after a reset that went through for [user] with [db_token]. *)
Definition after_reset `{AuthService} (s : Store) (user : User.t)
           (db_token : PasswordResetToken.t) (new_password : string) (now : Z) : Store :=
  mkStore
    (map (repositories_users.flush_row (User.id user)
            (fun r => String.eqb (User.password r) (get_password_hash new_password))
            (fun r => User.set_password r (get_password_hash new_password)) now)
         (users s))
    (contacts s)
    (filter (fun r => negb (PasswordResetToken.id r =? PasswordResetToken.id db_token))
            (password_reset_tokens s))
    (users_id_seq s) (contacts_id_seq s) (password_reset_tokens_id_seq s).

(* ------------------------------------------------------------------ *)
(** ** Owner scoping, as predicates on handlers *)

(** [c] is a row of the store whose owner is [user]. *)
Definition own (user : User.t) (s : Store) (c : Contact.t) : Prop :=
  In c (contacts s) /\ Contact.user_id c = Some (User.id user).

(** The rows of the store that [user] does not own. *)
Definition foreign (user : User.t) (s : Store) : list Contact.t :=
  filter (fun c => negb (repository_contacts.owned_by user c)) (contacts s).

(** A query leaves the store alone and returns rows of [user] only. *)
Definition reads_own_list (user : User.t) (s : Store) (m : M (list Contact.t)) : Prop :=
  forall r s', m s = (r, s') ->
    s' = s /\ forall cs, r = inr cs -> forall c, In c cs -> own user s c.

Definition reads_own_one (user : User.t) (s : Store) (m : M Contact.t) : Prop :=
  forall r s', m s = (r, s') ->
    s' = s /\ forall c, r = inr c -> own user s c.

(** A mutation, whatever its outcome, leaves every row of another owner
    in place and unchanged, as well as the other two tables. *)
Definition spares_foreign {A} (user : User.t) (s : Store) (m : M A) : Prop :=
  forall r s', m s = (r, s') ->
    foreign user s' = foreign user s /\
    users s' = users s /\ password_reset_tokens s' = password_reset_tokens s.

(* ================================================================== *)
(** * Properties *)

Ltac run :=
  repeat progress
    (unfold bind, get, put, ret, raise, lift, try_except, scalar_one_or_none in *;
     cbv beta iota in *).

(** ** Unique columns *)

Section unique_key.
Context {A K : Type} (key : A -> K) (eqb : K -> K -> bool).
Hypothesis eqb_eq : forall a b, eqb a b = true <-> a = b.

Lemma filter_key_absent (l : list A) (k : K) :
    (forall x, In x l -> key x <> k) ->
    filter (fun x => eqb (key x) k) l = [].
  Proof.
    induction l as [|a l IH]; intros Hno; [reflexivity|].
    cbn. destruct (eqb (key a) k) eqn:E.
    - apply eqb_eq in E. exfalso. apply (Hno a); [now left | exact E].
    - apply IH. intros x Hx. apply Hno. now right.
  Qed.

Lemma filter_key_unique (l : list A) (x : A) :
    NoDup (map key l) -> In x l ->
    filter (fun y => eqb (key y) (key x)) l = [x].
  Proof.
    induction l as [|a l IH]; intros Hnd Hin; [destruct Hin|].
    cbn in Hnd. inversion Hnd as [|? ? Hnotin Hnd']; subst.
    destruct Hin as [->|Hin].
    - cbn. replace (eqb (key x) (key x)) with true
        by (symmetry; now apply eqb_eq).
      f_equal. apply filter_key_absent.
      intros y Hy Heq. apply Hnotin. rewrite <- Heq. now apply in_map.
    - cbn. destruct (eqb (key a) (key x)) eqn:E.
      + apply eqb_eq in E. exfalso. apply Hnotin. rewrite E. now apply in_map.
      + now apply IH.
  Qed.

Lemma filter_key_In (l : list A) (k : K) (x : A) :
    In x (filter (fun y => eqb (key y) k) l) -> In x l /\ key x = k.
  Proof.
    intros Hx. apply filter_In in Hx. destruct Hx as [Hin E].
    split; [exact Hin | now apply eqb_eq].
  Qed.
End unique_key.

Lemma option_string_eqb_eq (x y : option string) :
  option_eqb String.eqb x y = true <-> x = y.
Proof.
  destruct x as [a|], y as [b|]; cbn; split; intros E;
    try discriminate; try reflexivity.
  - apply String.eqb_eq in E. now subst.
  - injection E as ->. apply String.eqb_refl.
Qed.

(** ** The user directory *)

Lemma get_user_by_email_unknown (s : Store) (e : string) :
  (forall u, In u (users s) -> User.email u <> e) ->
  repositories_users.get_user_by_email e s = (inr None, s).
Proof.
  intros Hno. unfold repositories_users.get_user_by_email. run.
  now rewrite (filter_key_absent User.email String.eqb String.eqb_eq).
Qed.

Lemma get_user_by_email_known (s : Store) (u : User.t) :
  NoDup (map User.email (users s)) -> In u (users s) ->
  repositories_users.get_user_by_email (User.email u) s = (inr (Some u), s).
Proof.
  intros Hnd Hin. unfold repositories_users.get_user_by_email. run.
  now rewrite (filter_key_unique User.email String.eqb String.eqb_eq).
Qed.

(** What a successful lookup says about the table. *)
Lemma get_user_by_email_inv (s s' : Store) (e : string) (r : option User.t) :
  repositories_users.get_user_by_email e s = (inr r, s') ->
  s' = s /\
  match r with
  | Some u => filter (fun x => String.eqb (User.email x) e) (users s) = [u]
  | None => filter (fun x => String.eqb (User.email x) e) (users s) = []
  end.
Proof.
  unfold repositories_users.get_user_by_email. run.
  destruct (filter _ (users s)) as [|a [|b l]]; intros E; inversion E; auto.
Qed.

Lemma filter_map_commute {A} (p : A -> bool) (g : A -> A) (l : list A) :
  (forall x, p (g x) = p x) -> filter p (map g l) = map g (filter p l).
Proof.
  intros Hp. induction l as [|a l IH]; [reflexivity|].
  cbn. rewrite Hp. destruct (p a); cbn; now rewrite IH.
Qed.

(** An UPDATE that leaves the email column alone keeps a lookup by email
    on the same row. *)
Lemma flush_user_lookup (s : Store) (e : string) (u : User.t)
      (unchanged : User.t -> bool) (write : User.t -> User.t) (now : Z) :
  (forall r, User.email (write r) = User.email r) ->
  filter (fun x => String.eqb (User.email x) e) (users s) = [u] ->
  exists s',
    repositories_users.flush_user (User.id u) unchanged write now s = (inr tt, s') /\
    contacts s' = contacts s /\
    password_reset_tokens s' = password_reset_tokens s /\
    users s' = map (repositories_users.flush_row (User.id u) unchanged write now) (users s) /\
    filter (fun x => String.eqb (User.email x) e) (users s')
    = [if unchanged u then u else User.set_updated_at (write u) now].
Proof.
  intros Hw Hf. eexists. unfold repositories_users.flush_user. run.
  split; [reflexivity|]. cbn. repeat split.
  rewrite filter_map_commute.
  - rewrite Hf. cbn. unfold repositories_users.flush_row.
    now rewrite Z.eqb_refl.
  - intros r. unfold repositories_users.flush_row.
    destruct (User.id r =? User.id u); [|reflexivity].
    destruct (unchanged r); [reflexivity|]. cbn. now rewrite Hw.
Qed.

(** A refresh token that is not the stored one is refused, and the
    stored one is cleared. *)
Lemma refresh_token_stale `{AuthService} (s : Store) (t e : string) (u : User.t) (now : Z) :
  decode_refresh_token t = inr e ->
  filter (fun x => String.eqb (User.email x) e) (users s) = [u] ->
  User.refresh_token u <> Some t ->
  exists s' u',
    routes_auth.refresh_token t now s
    = (inl (HTTPException HTTP_401_UNAUTHORIZED INVALID_REFRESH_TOKEN), s') /\
    filter (fun x => String.eqb (User.email x) e) (users s') = [u'] /\
    User.refresh_token u' = None.
Proof.
  intros Hd Hf Hne.
  destruct (flush_user_lookup s e u
              (fun r => option_eqb String.eqb (User.refresh_token r) None)
              (fun r => User.set_refresh_token r None) now) as (s' & Hrun & _ & _ & _ & Hf');
    [reflexivity | exact Hf |].
  exists s'. eexists. split; [|split; [exact Hf'|]].
  - assert (E : option_eqb String.eqb (User.refresh_token u) (Some t) = false).
    { destruct (option_eqb String.eqb (User.refresh_token u) (Some t)) eqn:E;
        [|reflexivity].
      apply option_string_eqb_eq in E. contradiction. }
    unfold routes_auth.refresh_token, repositories_users.get_user_by_email,
      repositories_users.update_token. run. rewrite Hd, Hf. run.
    rewrite E. cbn [negb]. unfold repositories_users.flush_user in *. run.
    now inversion Hrun.
  - destruct (option_eqb String.eqb (User.refresh_token u) None) eqn:E.
    + now apply option_string_eqb_eq in E.
    + reflexivity.
Qed.


Lemma get_user_by_email_of_filter (s : Store) (e : string) (u : User.t) :
  filter (fun x => String.eqb (User.email x) e) (users s) = [u] ->
  repositories_users.get_user_by_email e s = (inr (Some u), s).
Proof.
  intros Hf. unfold repositories_users.get_user_by_email. run. now rewrite Hf.
Qed.


(** ** Refresh-token rotation *)


Section refresh_rotation_on_demo.
Import demo.


End refresh_rotation_on_demo.

(** ** The demo store satisfies the schema's constraints *)

Ltac nodup_closed :=
  repeat (constructor; [cbn; intuition (discriminate || lia)|]); constructor.

Lemma demo_store_wf : wf_store demo.store.
Proof.
  constructor; cbn; try nodup_closed;
    intros x Hx; repeat (destruct Hx as [<-|Hx]; [cbn; lia|]); destruct Hx.
Qed.

Lemma NoDup_map_inj {A K} (key : A -> K) (l : list A) (x y : A) :
  NoDup (map key l) -> In x l -> In y l -> key x = key y -> x = y.
Proof.
  induction l as [|a l IH]; intros Hnd Hx Hy E; [destruct Hx|].
  cbn in Hnd. inversion Hnd as [|? ? Hnotin Hnd']; subst.
  destruct Hx as [->|Hx], Hy as [->|Hy]; auto.
  - exfalso. apply Hnotin. rewrite E. now apply in_map.
  - exfalso. apply Hnotin. rewrite <- E. now apply in_map.
Qed.

(** ** Password reset *)

Lemma reset_password_cases `{AuthService} (s : Store) (tok pw : string) (now : Z) :
  routes_auth.reset_password tok pw now s =
  match scalar (filter (fun r => String.eqb (PasswordResetToken.token r) tok)
                       (password_reset_tokens s)) with
  | None => (inl (HTTPException HTTP_400_BAD_REQUEST INVALID_OR_EXPIRED_TOKEN), s)
  | Some r =>
      if PasswordResetToken.expiration r <? now
      then (inl (HTTPException HTTP_400_BAD_REQUEST INVALID_OR_EXPIRED_TOKEN), s)
      else match scalar (filter (fun u => String.eqb (User.email u)
                                            (PasswordResetToken.email r))
                                (users s)) with
           | None => (inl (HTTPException HTTP_404_NOT_FOUND USER_NOT_FOUND), s)
           | Some u => (inr "Password has been reset successfully.",
                        after_reset s u r pw now)
           end
  end.
Proof.
  unfold routes_auth.reset_password, repositories_users.flush_user. run.
  destruct (scalar (filter _ (password_reset_tokens s))) as [r|]; [|reflexivity].
  destruct (PasswordResetToken.expiration r <? now); [reflexivity|].
  destruct (scalar (filter _ (users s))) as [u|]; reflexivity.
Qed.

Lemma lookup_reset_token (s : Store) (r : PasswordResetToken.t) :
  wf_store s -> In r (password_reset_tokens s) ->
  scalar (filter (fun x => String.eqb (PasswordResetToken.token x)
                                      (PasswordResetToken.token r))
                 (password_reset_tokens s)) = Some r.
Proof.
  intros Hwf Hin.
  rewrite (filter_key_unique PasswordResetToken.token String.eqb String.eqb_eq);
    [reflexivity | apply Hwf | exact Hin].
Qed.

Lemma lookup_user_of_token (s : Store) (u : User.t) :
  wf_store s -> In u (users s) ->
  filter (fun x => String.eqb (User.email x) (User.email u)) (users s) = [u].
Proof.
  intros Hwf Hin.
  apply (filter_key_unique User.email String.eqb String.eqb_eq);
    [apply Hwf | exact Hin].
Qed.

(** C2, as the code has it.  A request presenting a stored password-reset
    token [r] at time [now] fails with 400 (invalid or expired token)
    exactly when [r.expiration < now]: the comparison is strict, so a
    token whose expiration equals the current time is still accepted. *)
Theorem reset_password_expiry_strict `{AuthService}
        (s : Store) (r : PasswordResetToken.t) (pw : string) (now : Z) :
  wf_store s -> In r (password_reset_tokens s) ->
  (fst (routes_auth.reset_password (PasswordResetToken.token r) pw now s)
   = inl (HTTPException HTTP_400_BAD_REQUEST INVALID_OR_EXPIRED_TOKEN)
   <-> PasswordResetToken.expiration r < now).
Proof.
  intros Hwf Hin. rewrite reset_password_cases, (lookup_reset_token s r Hwf Hin).
  destruct (PasswordResetToken.expiration r <? now) eqn:E.
  - apply Z.ltb_lt in E. cbn. tauto.
  - apply Z.ltb_ge in E.
    destruct (scalar (filter _ (users s))); cbn;
      (split; [discriminate | lia]).
Qed.

Section reset_password_on_demo.
Import demo.

Lemma reset_password_expiry_strict_witness :
  fst (routes_auth.reset_password (PasswordResetToken.token alice_reset) "new-secret" 100 store)
  = inl (HTTPException HTTP_400_BAD_REQUEST INVALID_OR_EXPIRED_TOKEN)
  <-> PasswordResetToken.expiration alice_reset < 100.
Proof.
  apply (reset_password_expiry_strict store alice_reset "new-secret" 100).
  - exact demo_store_wf.
  - cbn. auto.
Defined.

(** C2, as stated, fails: the stored token [alice_reset] expires at 100,
    and a reset presenting it at time 100 goes through. *)
Lemma reset_password_at_expiration_instant :
  In alice_reset (password_reset_tokens store) /\
  PasswordResetToken.expiration alice_reset = 100 /\
  fst (routes_auth.reset_password (PasswordResetToken.token alice_reset) "new-secret" 100 store)
  = inr "Password has been reset successfully." /\
  fst (routes_auth.reset_password (PasswordResetToken.token alice_reset) "new-secret" 100 store)
  <> inl (HTTPException HTTP_400_BAD_REQUEST INVALID_OR_EXPIRED_TOKEN).
Proof.
  split; [cbn; auto|]. split; [reflexivity|].
  split; [vm_compute; reflexivity | vm_compute; discriminate].
Qed.

End reset_password_on_demo.

(** C4.  A password-reset completion presenting the token string [tok]:
    fails with 400 when no row carries [tok] or the row is expired; fails
    with 404 when no user has the row's email; otherwise the user's
    password becomes the hash of the new password and the row is deleted,
    after which any completion presenting [tok] again fails with 400. *)
Theorem reset_password_single_use `{AuthService}
        (s : Store) (tok pw : string) (now : Z) :
  wf_store s ->
  ((forall r, In r (password_reset_tokens s) -> PasswordResetToken.token r <> tok) ->
   routes_auth.reset_password tok pw now s
   = (inl (HTTPException HTTP_400_BAD_REQUEST INVALID_OR_EXPIRED_TOKEN), s)) /\
  (forall r, In r (password_reset_tokens s) -> PasswordResetToken.token r = tok ->
     (PasswordResetToken.expiration r < now ->
      routes_auth.reset_password tok pw now s
      = (inl (HTTPException HTTP_400_BAD_REQUEST INVALID_OR_EXPIRED_TOKEN), s)) /\
     (now <= PasswordResetToken.expiration r ->
      (forall u, In u (users s) -> User.email u <> PasswordResetToken.email r) ->
      routes_auth.reset_password tok pw now s
      = (inl (HTTPException HTTP_404_NOT_FOUND USER_NOT_FOUND), s)) /\
     (now <= PasswordResetToken.expiration r ->
      forall u, In u (users s) -> User.email u = PasswordResetToken.email r ->
      exists s' u',
        routes_auth.reset_password tok pw now s
        = (inr "Password has been reset successfully.", s') /\
        repositories_users.get_user_by_email (User.email u) s' = (inr (Some u'), s') /\
        User.id u' = User.id u /\
        User.password u' = get_password_hash pw /\
        (forall r', In r' (password_reset_tokens s') <->
                    In r' (password_reset_tokens s) /\ r' <> r) /\
        forall pw2 now2,
          routes_auth.reset_password tok pw2 now2 s'
          = (inl (HTTPException HTTP_400_BAD_REQUEST INVALID_OR_EXPIRED_TOKEN), s'))).
Proof.
  intros Hwf. split.
  - intros Habs. rewrite reset_password_cases.
    now rewrite (filter_key_absent PasswordResetToken.token String.eqb String.eqb_eq).
  - intros r Hin <-. pose proof (lookup_reset_token s r Hwf Hin) as Hlook.
    split; [|split].
    + intros Hexp. rewrite reset_password_cases, Hlook.
      apply Z.ltb_lt in Hexp. now rewrite Hexp.
    + intros Hlive Hno. rewrite reset_password_cases, Hlook.
      apply Z.ltb_ge in Hlive. rewrite Hlive.
      now rewrite (filter_key_absent User.email String.eqb String.eqb_eq).
    + intros Hlive u Hu Hmail.
      assert (Hdel : forall r', In r' (filter (fun x => negb (PasswordResetToken.id x =?
                                                   PasswordResetToken.id r))
                                              (password_reset_tokens s)) <->
                                In r' (password_reset_tokens s) /\ r' <> r).
      { intros r'. rewrite filter_In. split.
        - intros [Hin' Hid]. split; [exact Hin'|]. intros ->.
          now rewrite Z.eqb_refl in Hid.
        - intros [Hin' Hne]. split; [exact Hin'|].
          destruct (PasswordResetToken.id r' =? PasswordResetToken.id r) eqn:E;
            [|reflexivity].
          apply Z.eqb_eq in E. exfalso. apply Hne.
          apply (NoDup_map_inj PasswordResetToken.id (password_reset_tokens s));
            auto. apply Hwf. }
      pose proof (lookup_user_of_token s u Hwf Hu) as Hfu.
      exists (after_reset s u r pw now).
      eexists. split; [|split; [|split; [|split; [|split]]]].
      * rewrite reset_password_cases, Hlook.
        apply Z.ltb_ge in Hlive. rewrite Hlive, <- Hmail, Hfu. reflexivity.
      * apply get_user_by_email_of_filter. cbn [after_reset users].
        rewrite filter_map_commute.
        -- rewrite Hfu. cbn [map]. reflexivity.
        -- intros x. unfold repositories_users.flush_row.
           destruct (User.id x =? User.id u); [|reflexivity].
           now destruct (String.eqb (User.password x) (get_password_hash pw)).
      * unfold repositories_users.flush_row. rewrite Z.eqb_refl.
        now destruct (String.eqb (User.password u) (get_password_hash pw)).
      * unfold repositories_users.flush_row. rewrite Z.eqb_refl.
        destruct (String.eqb (User.password u) (get_password_hash pw)) eqn:E;
          [now apply String.eqb_eq in E | reflexivity].
      * exact Hdel.
      * intros pw2 now2. rewrite reset_password_cases. cbn [after_reset password_reset_tokens].
        rewrite (filter_key_absent PasswordResetToken.token String.eqb String.eqb_eq);
          [reflexivity|].
        intros x Hx Htok. apply Hdel in Hx. destruct Hx as [Hx Hne]. apply Hne.
        apply (NoDup_map_inj PasswordResetToken.token (password_reset_tokens s));
          auto. apply Hwf.
Qed.

Section reset_password_single_use_on_demo.
Import demo.

Lemma reset_password_single_use_witness :
  exists s' u',
    routes_auth.reset_password "reset-0" "new-secret" 50 store
    = (inr "Password has been reset successfully.", s') /\
    repositories_users.get_user_by_email (User.email alice) s' = (inr (Some u'), s') /\
    User.id u' = User.id alice /\
    User.password u' = get_password_hash "new-secret" /\
    (forall r', In r' (password_reset_tokens s') <->
                In r' (password_reset_tokens store) /\ r' <> alice_reset) /\
    forall pw2 now2,
      routes_auth.reset_password "reset-0" pw2 now2 s'
      = (inl (HTTPException HTTP_400_BAD_REQUEST INVALID_OR_EXPIRED_TOKEN), s').
Proof.
  destruct (reset_password_single_use store "reset-0" "new-secret" 50 demo_store_wf)
    as [_ Hstored].
  destruct (Hstored alice_reset) as (_ & _ & Hok).
  - cbn. auto.
  - reflexivity.
  - apply (Hok ltac:(cbn; lia) alice); [cbn; auto | reflexivity].
Defined.

End reset_password_single_use_on_demo.

(** ** What a password reset leaves alone *)

(** Refresh only reads the email and the refresh-token columns. *)
Lemma refresh_token_outcome_congr `{AuthService} (s s' : Store) (g : User.t -> User.t)
      (t : string) (now : Z) :
  users s' = map g (users s) ->
  (forall x, User.email (g x) = User.email x) ->
  (forall x, User.refresh_token (g x) = User.refresh_token x) ->
  fst (routes_auth.refresh_token t now s') = fst (routes_auth.refresh_token t now s).
Proof.
  intros Hus Hmail Htok.
  unfold routes_auth.refresh_token, repositories_users.get_user_by_email,
    repositories_users.update_token, repositories_users.flush_user. run.
  destruct (decode_refresh_token t) as [err|e]; [reflexivity|].
  rewrite Hus, filter_map_commute by (intros x; now rewrite Hmail).
  destruct (filter _ (users s)) as [|u [|u2 l]]; cbn [map]; try reflexivity.
  rewrite Htok.
  destruct (negb (option_eqb String.eqb (User.refresh_token u) (Some t))); reflexivity.
Qed.

(** C10, as the code has it.  After a successful reset-password completion
    for user [u], every column of [u] other than [password] and the
    [updated_at] timestamp is unchanged, no other user row changes, and
    the stored refresh token is not cleared: a refresh token accepted
    before the reset is accepted after it, with the same response. *)
Theorem reset_password_frame `{AuthService}
        (s : Store) (r : PasswordResetToken.t) (u : User.t) (pw : string) (now : Z) :
  wf_store s ->
  In r (password_reset_tokens s) -> now <= PasswordResetToken.expiration r ->
  In u (users s) -> User.email u = PasswordResetToken.email r ->
  exists s' u',
    routes_auth.reset_password (PasswordResetToken.token r) pw now s
    = (inr "Password has been reset successfully.", s') /\
    repositories_users.get_user_by_email (User.email u) s' = (inr (Some u'), s') /\
    (User.id u' = User.id u /\ User.username u' = User.username u /\
     User.email u' = User.email u /\ User.avatar u' = User.avatar u /\
     User.refresh_token u' = User.refresh_token u /\
     User.created_at u' = User.created_at u /\ User.role u' = User.role u /\
     User.confirmed u' = User.confirmed u) /\
    (forall v, In v (users s) -> User.id v <> User.id u -> In v (users s')) /\
    List.length (users s') = List.length (users s) /\
    forall t now2 resp s1,
      routes_auth.refresh_token t now2 s = (inr resp, s1) ->
      exists s1', routes_auth.refresh_token t now2 s' = (inr resp, s1').
Proof.
  intros Hwf Hr Hlive Hu Hmail.
  pose proof (lookup_user_of_token s u Hwf Hu) as Hfu.
  set (g := repositories_users.flush_row (User.id u)
              (fun x => String.eqb (User.password x) (get_password_hash pw))
              (fun x => User.set_password x (get_password_hash pw)) now).
  assert (Hg : forall x, User.email (g x) = User.email x /\
                         User.refresh_token (g x) = User.refresh_token x).
  { intros x. unfold g, repositories_users.flush_row.
    destruct (User.id x =? User.id u); [|now split].
    now destruct (String.eqb (User.password x) (get_password_hash pw)). }
  exists (after_reset s u r pw now), (g u).
  split; [|split; [|split; [|split; [|split]]]].
  - rewrite reset_password_cases, (lookup_reset_token s r Hwf Hr).
    apply Z.ltb_ge in Hlive. rewrite Hlive, <- Hmail, Hfu. reflexivity.
  - apply get_user_by_email_of_filter. cbn [after_reset users]. fold g.
    rewrite filter_map_commute by (intros x; now rewrite (proj1 (Hg x))).
    now rewrite Hfu.
  - unfold g, repositories_users.flush_row. rewrite Z.eqb_refl.
    destruct (String.eqb (User.password u) (get_password_hash pw)); cbn; tauto.
  - intros v Hv Hne. cbn [after_reset users]. fold g.
    replace v with (g v); [now apply in_map|].
    unfold g, repositories_users.flush_row.
    destruct (User.id v =? User.id u) eqn:E; [|reflexivity].
    apply Z.eqb_eq in E. contradiction.
  - cbn [after_reset users]. apply length_map.
  - intros t now2 resp s1 Hok.
    pose proof (refresh_token_outcome_congr s (after_reset s u r pw now) g t now2
                  eq_refl (fun x => proj1 (Hg x)) (fun x => proj2 (Hg x))) as Hc.
    rewrite Hok in Hc. cbn [fst] in Hc.
    destruct (routes_auth.refresh_token t now2 (after_reset s u r pw now)) as [o s1'].
    cbn [fst] in Hc. subst o. now exists s1'.
Qed.

Section reset_password_frame_on_demo.
Import demo.

Lemma reset_password_frame_witness :
  exists s' u',
    routes_auth.reset_password (PasswordResetToken.token alice_reset) "new-secret" 50 store
    = (inr "Password has been reset successfully.", s') /\
    repositories_users.get_user_by_email (User.email alice) s' = (inr (Some u'), s') /\
    (User.id u' = User.id alice /\ User.username u' = User.username alice /\
     User.email u' = User.email alice /\ User.avatar u' = User.avatar alice /\
     User.refresh_token u' = User.refresh_token alice /\
     User.created_at u' = User.created_at alice /\ User.role u' = User.role alice /\
     User.confirmed u' = User.confirmed alice) /\
    (forall v, In v (users store) -> User.id v <> User.id alice -> In v (users s')) /\
    List.length (users s') = List.length (users store) /\
    forall t now2 resp s1,
      routes_auth.refresh_token t now2 store = (inr resp, s1) ->
      exists s1', routes_auth.refresh_token t now2 s' = (inr resp, s1').
Proof.
  apply (reset_password_frame store alice_reset alice "new-secret" 50).
  - exact demo_store_wf.
  - cbn. auto.
  - cbn. lia.
  - cbn. auto.
  - reflexivity.
Defined.

(** C10, as stated, fails on the [updated_at] column: the reset at time
    50 moves alice's [updated_at] from 5 to 50. *)
Lemma reset_password_touches_updated_at :
  exists s' u',
    routes_auth.reset_password (PasswordResetToken.token alice_reset) "new-secret" 50 store
    = (inr "Password has been reset successfully.", s') /\
    repositories_users.get_user_by_email (User.email alice) s' = (inr (Some u'), s') /\
    User.updated_at alice = 5 /\ User.updated_at u' = 50 /\
    User.updated_at u' <> User.updated_at alice.
Proof.
  eexists. eexists.
  split; [vm_compute; reflexivity|].
  split; [vm_compute; reflexivity|].
  split; [reflexivity|]. split; [reflexivity|]. cbn. lia.
Qed.

End reset_password_frame_on_demo.

(** ** Login *)

Lemma email_known_or_not (l : list User.t) (e : string) :
  (forall u, In u l -> User.email u <> e) \/
  (exists u, In u l /\ User.email u = e).
Proof.
  induction l as [|a l [IH|[u [Hu He]]]].
  - left. intros u [].
  - destruct (String.eqb (User.email a) e) eqn:E.
    + apply String.eqb_eq in E. right. exists a. split; [now left | exact E].
    + apply String.eqb_neq in E. left. intros u [<-|Hu]; auto.
  - right. exists u. split; [now right | exact He].
Qed.

Lemma login_cases `{AuthService} (s : Store) (username password : string) (now : Z) :
  routes_auth.login username password now s =
  match filter (fun u => String.eqb (User.email u) username) (users s) with
  | [] => (inl (HTTPException HTTP_401_UNAUTHORIZED INVALID_EMAIL), s)
  | [user] =>
      if negb (User.confirmed user)
      then (inl (HTTPException HTTP_401_UNAUTHORIZED EMAIL_NOT_CONFIRMED), s)
      else if negb (verify_password password (User.password user))
      then (inl (HTTPException HTTP_401_UNAUTHORIZED INVALID_PASSWORD), s)
      else (inr (TokenSchema.mk (create_access_token now (User.email user))
                                (create_refresh_token now (User.email user)) "bearer"),
            with_users s
              (map (repositories_users.flush_row (User.id user)
                      (fun r => option_eqb String.eqb (User.refresh_token r)
                                  (Some (create_refresh_token now (User.email user))))
                      (fun r => User.set_refresh_token r
                                  (Some (create_refresh_token now (User.email user))))
                      now)
                   (users s)))
  | _ => (inl MultipleResultsFound, s)
  end.
Proof.
  unfold routes_auth.login, repositories_users.get_user_by_email,
    repositories_users.update_token, repositories_users.flush_user. run.
  destruct (filter _ (users s)) as [|u [|u2 l]]; try reflexivity.
  destruct (negb (User.confirmed u)); [reflexivity|].
  destruct (negb (verify_password password (User.password u))); reflexivity.
Qed.

(** C3.  Login fails with status 401 exactly when the email is unknown,
    the account is unconfirmed, or the password does not verify, each with
    its own message; an unconfirmed account gets the unconfirmed message
    whether or not the password verifies; in every other case login
    succeeds with an access and refresh token pair, and the refresh token
    is stored on the user. *)
Theorem login_401_exactly `{AuthService}
        (s : Store) (username password : string) (now : Z) :
  wf_store s ->
  ((forall u, In u (users s) -> User.email u <> username) ->
   routes_auth.login username password now s
   = (inl (HTTPException 401 INVALID_EMAIL), s)) /\
  (forall u, In u (users s) -> User.email u = username ->
     (User.confirmed u = false ->
      routes_auth.login username password now s
      = (inl (HTTPException 401 EMAIL_NOT_CONFIRMED), s)) /\
     (User.confirmed u = true -> verify_password password (User.password u) = false ->
      routes_auth.login username password now s
      = (inl (HTTPException 401 INVALID_PASSWORD), s)) /\
     (User.confirmed u = true -> verify_password password (User.password u) = true ->
      exists s' u',
        routes_auth.login username password now s
        = (inr (TokenSchema.mk (create_access_token now username)
                               (create_refresh_token now username) "bearer"), s') /\
        repositories_users.get_user_by_email username s' = (inr (Some u'), s') /\
        User.refresh_token u' = Some (create_refresh_token now username))) /\
  ((exists d, fst (routes_auth.login username password now s)
              = inl (HTTPException 401 d)) <->
   (forall u, In u (users s) -> User.email u <> username) \/
   (exists u, In u (users s) /\ User.email u = username /\
              (User.confirmed u = false \/
               verify_password password (User.password u) = false))) /\
  ((exists d, fst (routes_auth.login username password now s)
              = inl (HTTPException 401 d)) \/
   (exists resp, fst (routes_auth.login username password now s) = inr resp)) /\
  INVALID_EMAIL <> EMAIL_NOT_CONFIRMED /\ INVALID_EMAIL <> INVALID_PASSWORD /\
  EMAIL_NOT_CONFIRMED <> INVALID_PASSWORD.
Proof.
  intros Hwf.
  assert (Hunknown : (forall u, In u (users s) -> User.email u <> username) ->
                     routes_auth.login username password now s
                     = (inl (HTTPException 401 INVALID_EMAIL), s)).
  { intros Hno. rewrite login_cases.
    now rewrite (filter_key_absent User.email String.eqb String.eqb_eq). }
  assert (Hknown : forall u, In u (users s) -> User.email u = username ->
            filter (fun x => String.eqb (User.email x) username) (users s) = [u]).
  { intros u Hu <-. now apply lookup_user_of_token. }
  split; [exact Hunknown|]. split; [|split; [|split]].
  - intros u Hu He. pose proof (Hknown u Hu He) as Hf. split; [|split].
    + intros Hc. rewrite login_cases, Hf, Hc. reflexivity.
    + intros Hc Hv. rewrite login_cases, Hf, Hc, Hv. reflexivity.
    + intros Hc Hv. rewrite login_cases, Hf, Hc, Hv. cbn [negb]. rewrite He.
      eexists. eexists. split; [reflexivity|]. split.
      * apply get_user_by_email_of_filter. cbn [with_users users].
        rewrite filter_map_commute.
        -- rewrite Hf. cbn [map]. reflexivity.
        -- intros x. unfold repositories_users.flush_row.
           destruct (User.id x =? User.id u); [|reflexivity].
           now destruct (option_eqb String.eqb (User.refresh_token x) _).
      * unfold repositories_users.flush_row. rewrite Z.eqb_refl.
        destruct (option_eqb String.eqb (User.refresh_token u)
                             (Some (create_refresh_token now username))) eqn:E;
          [now apply option_string_eqb_eq in E | reflexivity].
  - split.
    + intros [d Hd].
      destruct (email_known_or_not (users s) username) as [Hno|[u [Hu He]]];
        [now left|].
      right. exists u. split; [exact Hu|]. split; [exact He|].
      rewrite login_cases, (Hknown u Hu He) in Hd.
      destruct (User.confirmed u); [|now left].
      destruct (verify_password password (User.password u)); [|now right].
      cbn in Hd. discriminate.
    + intros [Hno|[u [Hu [He [Hc|Hv]]]]].
      * rewrite (Hunknown Hno). now eexists.
      * rewrite login_cases, (Hknown u Hu He), Hc. now eexists.
      * rewrite login_cases, (Hknown u Hu He), Hv.
        destruct (User.confirmed u); now eexists.
  - destruct (email_known_or_not (users s) username) as [Hno|[u [Hu He]]].
    + left. rewrite (Hunknown Hno). now eexists.
    + rewrite login_cases, (Hknown u Hu He).
      destruct (User.confirmed u); [|left; now eexists].
      destruct (verify_password password (User.password u));
        [right|left]; now eexists.
  - repeat split; discriminate.
Qed.

Section login_on_demo.
Import demo.

Lemma login_401_exactly_witness :
  routes_auth.login "bob@example.com" "hunter2" 50 store
  = (inl (HTTPException 401 EMAIL_NOT_CONFIRMED), store) /\
  routes_auth.login "alice@example.com" "guess" 50 store
  = (inl (HTTPException 401 INVALID_PASSWORD), store) /\
  exists s' u',
    routes_auth.login "alice@example.com" "secret" 50 store
    = (inr (TokenSchema.mk (create_access_token 50 "alice@example.com")
                           (create_refresh_token 50 "alice@example.com") "bearer"), s') /\
    repositories_users.get_user_by_email "alice@example.com" s' = (inr (Some u'), s') /\
    User.refresh_token u' = Some (create_refresh_token 50 "alice@example.com").
Proof.
  split; [|split].
  - destruct (login_401_exactly store "bob@example.com" "hunter2" 50 demo_store_wf)
      as (_ & Hk & _).
    destruct (Hk bob) as (Hunconfirmed & _); [cbn; auto | reflexivity |].
    apply Hunconfirmed. reflexivity.
  - destruct (login_401_exactly store "alice@example.com" "guess" 50 demo_store_wf)
      as (_ & Hk & _).
    destruct (Hk alice) as (_ & Hbad & _); [cbn; auto | reflexivity |].
    apply Hbad; reflexivity.
  - destruct (login_401_exactly store "alice@example.com" "secret" 50 demo_store_wf)
      as (_ & Hk & _).
    destruct (Hk alice) as (_ & _ & Hok); [cbn; auto | reflexivity |].
    apply Hok; reflexivity.
Defined.

End login_on_demo.

(** ** Email confirmation *)

(** C9.  For a user whose [confirmed] flag is already true, a
    confirm-email call whose token decodes to the user's email succeeds
    with the already-confirmed message, which differs from the message of
    a first confirmation, and leaves the store as it was. *)
Theorem confirmed_email_already_confirmed `{AuthService}
        (s : Store) (token : string) (u : User.t) (now : Z) :
  wf_store s ->
  In u (users s) ->
  get_email_from_token token = inr (User.email u) ->
  User.confirmed u = true ->
  routes_auth.confirmed_email token now s = (inr "Your email is already confirmed", s) /\
  "Your email is already confirmed" <> "Email confirmed".
Proof.
  intros Hwf Hu Hd Hc. split; [|discriminate].
  unfold routes_auth.confirmed_email. run. rewrite Hd. run.
  rewrite (get_user_by_email_known s u); [|apply Hwf|exact Hu]. run.
  now rewrite Hc.
Qed.

(** A first confirmation flips the flag, and the same link used again is
    then that no-op. *)
Lemma confirmed_email_twice `{AuthService}
      (s : Store) (token : string) (u : User.t) (now now2 : Z) :
  wf_store s ->
  In u (users s) ->
  get_email_from_token token = inr (User.email u) ->
  User.confirmed u = false ->
  exists s1,
    routes_auth.confirmed_email token now s = (inr "Email confirmed", s1) /\
    routes_auth.confirmed_email token now2 s1
    = (inr "Your email is already confirmed", s1).
Proof.
  intros Hwf Hu Hd Hc.
  pose proof (lookup_user_of_token s u Hwf Hu) as Hf.
  destruct (flush_user_lookup s (User.email u) u
              (fun r => Bool.eqb (User.confirmed r) true)
              (fun r => User.set_confirmed r true) now)
    as (s1 & Hrun & _ & _ & _ & Hf1); [reflexivity | exact Hf |].
  rewrite Hc in Hf1. cbn [Bool.eqb] in Hf1.
  exists s1. split.
  - unfold routes_auth.confirmed_email, repositories_users.confirmed_email. run.
    rewrite Hd. run. rewrite (get_user_by_email_of_filter s _ u Hf). run.
    rewrite Hc. run. rewrite (get_user_by_email_of_filter s _ u Hf). run.
    now rewrite Hrun.
  - unfold routes_auth.confirmed_email. run. rewrite Hd. run.
    rewrite (get_user_by_email_of_filter s1 _ _ Hf1). run. reflexivity.
Qed.

Section confirmed_email_on_demo.
Import demo.

Lemma confirmed_email_already_confirmed_witness :
  routes_auth.confirmed_email "alice@example.com#confirm" 50 store
  = (inr "Your email is already confirmed", store) /\
  "Your email is already confirmed" <> "Email confirmed".
Proof.
  apply (confirmed_email_already_confirmed store "alice@example.com#confirm" alice 50).
  - exact demo_store_wf.
  - cbn. auto.
  - reflexivity.
  - reflexivity.
Defined.

End confirmed_email_on_demo.

(** ** Confirmation resend *)

(** For a user that exists, [request_email] answers with one of its two
    messages and never raises. *)
Lemma request_email_known (s : Store) (u : User.t) (base_url : string) :
  wf_store s -> In u (users s) ->
  routes_auth.request_email (User.email u) base_url s
  = (inr (if User.confirmed u
          then ("Your email is already confirmed", [])
          else ("Check your email for confirmation.",
                [send_email (User.email u) (User.username u) base_url])), s).
Proof.
  intros Hwf Hu. unfold routes_auth.request_email. run.
  rewrite (get_user_by_email_known s u); [|apply Hwf|exact Hu]. run.
  now destruct (User.confirmed u).
Qed.

Lemma request_email_unknown (s : Store) (email base_url : string) :
  (forall u, In u (users s) -> User.email u <> email) ->
  routes_auth.request_email email base_url s = (inl (AttributeError "confirmed"), s).
Proof.
  intros Hno. unfold routes_auth.request_email. run.
  rewrite (get_user_by_email_unknown s email Hno). run. reflexivity.
Qed.

(** C6 at its failing input: with no user of that email, [request_email]
    does not return a message; [user.confirmed] is read on [None] and the
    call ends in an [AttributeError]. *)
Theorem request_email_unknown_email_raises :
  routes_auth.request_email "nobody@example.com" "http://testserver/" empty_store
  = (inl (AttributeError "confirmed"), empty_store) /\
  forall msg tasks,
    fst (routes_auth.request_email "nobody@example.com" "http://testserver/" empty_store)
    <> inr (msg, tasks).
Proof.
  split; [reflexivity|]. intros msg tasks. cbn. discriminate.
Qed.

(** ** Signup *)


Section signup_on_demo.
Import demo.


End signup_on_demo.

(** ** Calendar arithmetic *)

Lemma days_in_month_bounds (y m : Z) : 28 <= date.days_in_month y m <= 31.
Proof.
  unfold date.days_in_month.
  destruct (m =? 2); [destruct (date.is_leap y); lia|].
  destruct (orb _ _); lia.
Qed.

Lemma next_day_valid (d : date.t) : date.valid d -> date.valid (date.next_day d).
Proof.
  unfold date.valid, date.next_day. intros [Hm Hd].
  destruct (date.day d <? _) eqn:E; cbn.
  - apply Z.ltb_lt in E. lia.
  - destruct (date.month d <? 12) eqn:E2; cbn.
    + apply Z.ltb_lt in E2.
      pose proof (days_in_month_bounds (date.year d) (date.month d + 1)). lia.
    + pose proof (days_in_month_bounds (date.year d + 1) 1). lia.
Qed.

(** Up to 28 days ahead, [add_days] stays in the month or lands in the
    next one. *)
Lemma add_days_short (n : nat) :
  forall d, date.valid d -> (n <= 28)%nat ->
    let dim := date.days_in_month (date.year d) (date.month d) in
    (date.day d + Z.of_nat n <= dim ->
     date.add_days n d = date.mk (date.year d) (date.month d) (date.day d + Z.of_nat n)) /\
    (dim < date.day d + Z.of_nat n ->
     date.month (date.add_days n d) = (if date.month d <? 12 then date.month d + 1 else 1) /\
     date.day (date.add_days n d) = date.day d + Z.of_nat n - dim).
Proof.
  induction n as [|k IH]; intros d Hv Hn dim.
  - cbn [date.add_days]. split.
    + intros _. destruct d as [y m dd]. cbn. f_equal. lia.
    + intros Hlt. destruct Hv as [_ Hd]. subst dim. lia.
  - cbn [date.add_days].
    pose proof (next_day_valid d Hv) as Hnv.
    destruct (IH (date.next_day d) Hnv ltac:(lia)) as [IHin IHout].
    unfold date.next_day in *. subst dim.
    destruct (date.day d <? date.days_in_month (date.year d) (date.month d)) eqn:E.
    + apply Z.ltb_lt in E. cbn [date.year date.month date.day] in *. split.
      * intros Hle. rewrite IHin by lia. f_equal. lia.
      * intros Hlt. destruct (IHout ltac:(lia)) as [Hm Hd]. split; [exact Hm | lia].
    + apply Z.ltb_ge in E. destruct Hv as [Hm Hd]. split; [lia|]. intros _.
      destruct (date.month d <? 12) eqn:E2;
        cbn [date.year date.month date.day] in *.
      * pose proof (days_in_month_bounds (date.year d) (date.month d + 1)) as Hb.
        rewrite (IHin ltac:(clear - Hn Hb; lia)). cbn [date.month date.day].
        split; [reflexivity | lia].
      * pose proof (days_in_month_bounds (date.year d + 1) 1) as Hb.
        rewrite (IHin ltac:(clear - Hn Hb; lia)). cbn [date.month date.day].
        split; [reflexivity | lia].
Qed.

(** ** Upcoming birthdays *)

(** What does hold of the window: a birthday on the month and day of
    [today + 3 days] passes the filter, whatever the date. *)
Lemma birthday_three_days_ahead (today b : date.t) :
  date.valid today ->
  date.month b = date.month (date.add_days 3 today) ->
  date.day b = date.day (date.add_days 3 today) ->
  repository_contacts.birthday_in_window today (date.add_days 7 today) b = true.
Proof.
  intros Hv Hm Hd. unfold repository_contacts.birthday_in_window.
  destruct (add_days_short 3 today Hv ltac:(lia)) as [H3in H3out].
  destruct (add_days_short 7 today Hv ltac:(lia)) as [_ H7out].
  cbn [Z.of_nat Pos.of_succ_nat Pos.succ] in *.
  destruct (Z_le_gt_dec (date.day today + 3)
                        (date.days_in_month (date.year today) (date.month today)))
    as [Hle|Hgt].
  - rewrite (H3in Hle) in Hm, Hd. cbn in Hm, Hd. rewrite Hm, Hd, Z.eqb_refl.
    replace (date.day today + 3 >=? date.day today) with true
      by (symmetry; apply Z.geb_le; lia).
    reflexivity.
  - destruct (H3out ltac:(lia)) as [Hm3 Hd3].
    destruct (H7out ltac:(lia)) as [Hm7 Hd7].
    rewrite Hm, Hd, Hm3, Hd3, Hm7, Hd7, Z.eqb_refl.
    replace (_ <=? _) with true by (symmetry; apply Z.leb_le; lia).
    apply orb_true_r.
Qed.

Lemma read_birthday_three_days_ahead (s : Store) (user : User.t) (today : date.t)
      (c : Contact.t) :
  date.valid today ->
  In c (contacts s) ->
  Contact.user_id c = Some (User.id user) ->
  date.month (Contact.birthday c) = date.month (date.add_days 3 today) ->
  date.day (Contact.birthday c) = date.day (date.add_days 3 today) ->
  exists cs, routes_contacts.read_birthday today user s = (inr cs, s) /\ In c cs.
Proof.
  intros Hv Hin Hown Hm Hd. eexists. split; [reflexivity|].
  apply filter_In. split; [exact Hin|].
  rewrite (birthday_three_days_ahead today _ Hv Hm Hd).
  unfold repository_contacts.owned_by. rewrite Hown. cbn.
  now rewrite Z.eqb_refl.
Qed.

(** C5 at its failing input.  Queried on 2024-05-01 by alice, the filter
    returns her contact born on May 11, the month and day of today + 10
    days in the same year; the contact born on May 4 (today + 3 days) is
    returned as well, and the contact of another owner is not. *)
Theorem read_birthday_ten_days_ahead_returned :
  let today := date.mk 2024 5 1 in
  date.valid today /\
  date.add_days 10 today = date.mk 2024 5 11 /\
  Contact.user_id demo.may_11 = Some (User.id demo.alice) /\
  date.month (Contact.birthday demo.may_11) = date.month (date.add_days 10 today) /\
  date.day (Contact.birthday demo.may_11) = date.day (date.add_days 10 today) /\
  routes_contacts.read_birthday today demo.alice demo.store
  = (inr [demo.may_11; demo.may_4], demo.store).
Proof.
  cbv zeta. unfold date.valid. repeat split; try reflexivity; cbn; lia.
Qed.

(** ** Owner scoping of contacts *)

Lemma owned_by_spec (user : User.t) (c : Contact.t) :
  repository_contacts.owned_by user c = true <->
  Contact.user_id c = Some (User.id user).
Proof.
  unfold repository_contacts.owned_by.
  destruct (Contact.user_id c) as [i|]; cbn; split; intros E; try discriminate.
  - apply Z.eqb_eq in E. now subst.
  - injection E as ->. apply Z.eqb_refl.
Qed.

Lemma In_firstn {A} (n : nat) (l : list A) (x : A) : In x (firstn n l) -> In x l.
Proof.
  revert l. induction n as [|n IH]; intros [|a l]; cbn; try tauto.
  intros [->|Hx]; [now left | right; now apply IH].
Qed.

Lemma In_skipn {A} (n : nat) (l : list A) (x : A) : In x (skipn n l) -> In x l.
Proof.
  revert l. induction n as [|n IH]; intros [|a l]; cbn; try tauto.
  intros Hx. right. now apply IH.
Qed.

Lemma filter_own (user : User.t) (s : Store) (p : Contact.t -> bool) (c : Contact.t) :
  (forall x, p x = true -> repository_contacts.owned_by user x = true) ->
  In c (filter p (contacts s)) -> own user s c.
Proof.
  intros Hp Hc. apply filter_In in Hc. destruct Hc as [Hin Hpc].
  split; [exact Hin | now apply owned_by_spec, Hp].
Qed.

(** The shape shared by the queries that return a list. *)
Lemma ret_filter_reads_own (user : User.t) (s : Store) (p : Contact.t -> bool)
      (after : list Contact.t -> list Contact.t) :
  (forall x, p x = true -> repository_contacts.owned_by user x = true) ->
  (forall l x, In x (after l) -> In x l) ->
  reads_own_list user s (s0 <- get ;; ret (after (filter p (contacts s0)))).
Proof.
  intros Hp Hafter r s' E. run. injection E as Hr Hs. subst r s'.
  split; [reflexivity|].
  intros cs Hcs c Hc. injection Hcs as <-.
  apply (filter_own user s p); [exact Hp | now apply Hafter].
Qed.

(** The lookup shared by get-by-id, update and delete. *)
Lemma scalar_one_or_none_own (user : User.t) (s : Store) (p : Contact.t -> bool)
      (r : exn + option Contact.t) (s' : Store) :
  (forall x, p x = true -> repository_contacts.owned_by user x = true) ->
  scalar_one_or_none (filter p (contacts s)) s = (r, s') ->
  s' = s /\
  (r = inr None \/ r = inl MultipleResultsFound \/
   exists c, r = inr (Some c) /\ own user s c /\ p c = true).
Proof.
  intros Hp E. run.
  destruct (filter p (contacts s)) as [|c [|c2 l]] eqn:Hf;
    injection E as Hr Hs; subst r s'; (split; [reflexivity|]); auto.
  right. right. exists c.
  assert (Hc : In c (filter p (contacts s))) by (rewrite Hf; now left).
  split; [reflexivity|]. split; [now apply (filter_own user s p)|].
  now apply filter_In in Hc.
Qed.

Lemma filter_map_fixed {A} (p : A -> bool) (f : A -> A) (l : list A) :
  (forall x, In x l -> p x = true -> f x = x) ->
  (forall x, In x l -> p x = false -> p (f x) = false) ->
  filter p (map f l) = filter p l.
Proof.
  induction l as [|a l IH]; intros Hfix Hkeep; [reflexivity|].
  cbn. destruct (p a) eqn:E.
  - rewrite (Hfix a); [|now left|exact E]. rewrite E. f_equal.
    apply IH; intros x Hx; [apply Hfix | apply Hkeep]; now right.
  - rewrite (Hkeep a); [|now left|exact E].
    apply IH; intros x Hx; [apply Hfix | apply Hkeep]; now right.
Qed.

Lemma filter_filter_implied {A} (p q : A -> bool) (l : list A) :
  (forall x, In x l -> p x = true -> q x = true) ->
  filter p (filter q l) = filter p l.
Proof.
  induction l as [|a l IH]; intros Himp; [reflexivity|].
  cbn. destruct (q a) eqn:Eq; cbn.
  - destruct (p a); [f_equal|]; apply IH; intros x Hx; apply Himp; now right.
  - destruct (p a) eqn:Ep.
    + rewrite (Himp a) in Eq; [discriminate | now left | exact Ep].
    + apply IH. intros x Hx. apply Himp. now right.
Qed.

(** Under the primary key of [contacts], the row with the id of an owned
    row is that row. *)
Lemma same_id_owned (user : User.t) (s : Store) (c x : Contact.t) :
  wf_store s -> own user s c -> In x (contacts s) ->
  (Contact.id x =? Contact.id c) = true ->
  repository_contacts.owned_by user x = true.
Proof.
  intros Hwf [Hc Hown] Hx E. apply Z.eqb_eq in E.
  assert (x = c) as -> by
      (apply (NoDup_map_inj Contact.id (contacts s)); auto; apply Hwf).
  now apply owned_by_spec.
Qed.

Lemma read_all_contacts_own (user : User.t) (s : Store) (limit offset : Z) :
  reads_own_list user s (routes_contacts.read_all_contacts limit offset user).
Proof.
  unfold routes_contacts.read_all_contacts.
  destruct ((limit <? 10) || (500 <? limit) || (offset <? 0)).
  - intros r s' E. run. injection E as <- <-. split; [reflexivity | discriminate].
  - apply (ret_filter_reads_own user s (repository_contacts.owned_by user)
             (fun l => firstn (Z.to_nat limit) (skipn (Z.to_nat offset) l))).
    + auto.
    + intros l x Hx. eapply In_skipn, In_firstn, Hx.
Qed.

Lemma read_birthday_own (user : User.t) (s : Store) (today : date.t) :
  reads_own_list user s (routes_contacts.read_birthday today user).
Proof.
  apply (ret_filter_reads_own user s _ (fun l => l)); [|auto].
  intros x E. now apply andb_true_iff in E.
Qed.

Lemma nonempty_reads_own (user : User.t) (s : Store) (m : M (list Contact.t)) :
  reads_own_list user s m ->
  reads_own_list user s
    (contacts <- m ;; match contacts with
                      | [] => routes_contacts.not_found
                      | _ => ret contacts
                      end).
Proof.
  intros Hm r s' E. unfold routes_contacts.not_found in E. run.
  destruct (m s) as [[e|cs] s1] eqn:Em; destruct (Hm _ _ Em) as [-> Hcs].
  - injection E as <- <-. split; [reflexivity | discriminate].
  - destruct cs as [|c cs]; injection E as <- <-;
      (split; [reflexivity|]); [discriminate|].
    intros cs' Hcs'. injection Hcs' as <-. now apply Hcs.
Qed.

Lemma read_contact_first_name_own (user : User.t) (s : Store) (name : string) :
  reads_own_list user s (routes_contacts.read_contact_first_name name user).
Proof.
  apply nonempty_reads_own.
  apply (ret_filter_reads_own user s _ (fun l => l)); [|auto].
  intros x Ex. now apply andb_true_iff in Ex.
Qed.

Lemma read_contact_last_name_own (user : User.t) (s : Store) (name : string) :
  reads_own_list user s (routes_contacts.read_contact_last_name name user).
Proof.
  apply nonempty_reads_own.
  apply (ret_filter_reads_own user s _ (fun l => l)); [|auto].
  intros x Ex. now apply andb_true_iff in Ex.
Qed.

Lemma read_by_contact_id_own (user : User.t) (s : Store) (contact_id : Z) :
  reads_own_one user s (routes_contacts.read_by_contact_id contact_id user).
Proof.
  intros r s' E.
  unfold routes_contacts.read_by_contact_id, routes_contacts.not_found,
    repository_contacts.get_contact_id in E.
  destruct (contact_id <? 1).
  - run. injection E as <- <-. split; [reflexivity | discriminate].
  - unfold bind, get in E. cbv beta iota in E.
    destruct (scalar_one_or_none _ s) as [o s1] eqn:El.
    apply scalar_one_or_none_own with (user := user) in El;
      [|intros x Ex; now apply andb_true_iff in Ex].
    destruct El as [-> [->|[->|(c & -> & Hown & _)]]]; run;
      injection E as <- <-; (split; [reflexivity|]); try discriminate.
    intros c' Hc. now injection Hc as <-.
Qed.

Lemma read_contact_email_own (user : User.t) (s : Store) (email : string) :
  reads_own_one user s (routes_contacts.read_contact_email email user).
Proof.
  intros r s' E.
  unfold routes_contacts.read_contact_email, repository_contacts.get_contact_email in E.
  unfold bind, get in E. cbv beta iota in E.
  destruct (scalar_one_or_none _ s) as [o s1] eqn:El.
  apply scalar_one_or_none_own with (user := user) in El;
    [|intros x Ex; now apply andb_true_iff in Ex].
  destruct El as [-> [->|[->|(c & -> & Hown & _)]]]; run;
    injection E as <- <-; (split; [reflexivity|]); try discriminate.
  intros c' Hc. now injection Hc as <-.
Qed.

Lemma create_contact_scoped (user : User.t) (s : Store) (body : ContactSchema.t) (now : Z) :
  spares_foreign user s (routes_contacts.create_contact body user now) /\
  forall c s', routes_contacts.create_contact body user now s = (inr c, s') ->
               own user s' c.
Proof.
  unfold spares_foreign, routes_contacts.create_contact,
    repository_contacts.create_contact. run.
  destruct (existsb _ (contacts s)).
  - split; [intros r s' E; injection E as <- <-; auto | discriminate].
  - split.
    + intros r s' E. injection E as <- <-. unfold foreign. cbn [contacts users
        password_reset_tokens]. rewrite filter_app. cbn [filter].
      unfold repository_contacts.owned_by at 2. cbn. rewrite Z.eqb_refl. cbn.
      now rewrite app_nil_r.
    + intros c s' E. injection E as <- <-. split; [|reflexivity].
      cbn [contacts]. apply in_or_app. right. now left.
Qed.

Lemma update_contact_cases (user : User.t) (s : Store) (body : ContactSchema.t)
      (contact_id : Z) (now : Z) :
  routes_contacts.update_contact body contact_id user now s =
  if contact_id <? 1 then (inl RequestValidationError, s)
  else
    match filter (fun c => (Contact.id c =? contact_id)
                           && repository_contacts.owned_by user c) (contacts s) with
    | [] => (inl (HTTPException HTTP_404_NOT_FOUND (Literal "Contact not found")), s)
    | [c] =>
        if repository_contacts.same_fields c body then (inr c, s)
        else if existsb (fun x => negb (Contact.id x =? Contact.id c)
                                  && (String.eqb (Contact.email x) (ContactSchema.email body)
                                      || String.eqb (Contact.phone_number x)
                                                    (ContactSchema.phone_number body)))
                        (contacts s)
        then (inl IntegrityError, s)
        else (inr (repository_contacts.assign c body now),
              with_contacts s
                (map (fun x => if Contact.id x =? Contact.id c
                               then repository_contacts.assign x body now else x)
                     (contacts s)))
    | _ => (inl MultipleResultsFound, s)
    end.
Proof.
  unfold routes_contacts.update_contact, routes_contacts.not_found,
    repository_contacts.update_contact.
  destruct (contact_id <? 1); [reflexivity|]. run.
  destruct (filter _ (contacts s)) as [|c [|c2 l]]; try reflexivity.
  destruct (repository_contacts.same_fields c body); [reflexivity|].
  destruct (existsb _ (contacts s)); reflexivity.
Qed.

Lemma remove_contact_cases (user : User.t) (s : Store) (contact_id : Z) :
  routes_contacts.remove_contact contact_id user s =
  if contact_id <? 1 then (inl RequestValidationError, s)
  else
    match filter (fun c => (Contact.id c =? contact_id)
                           && repository_contacts.owned_by user c) (contacts s) with
    | [] => (inl (HTTPException HTTP_404_NOT_FOUND (Literal "Contact not found")), s)
    | [c] => (inr tt,
              with_contacts s
                (filter (fun x => negb (Contact.id x =? Contact.id c)) (contacts s)))
    | _ => (inl MultipleResultsFound, s)
    end.
Proof.
  unfold routes_contacts.remove_contact, routes_contacts.not_found,
    repository_contacts.remove_contact.
  destruct (contact_id <? 1); [reflexivity|]. run.
  destruct (filter _ (contacts s)) as [|c [|c2 l]]; reflexivity.
Qed.

Lemma filter_singleton_own (user : User.t) (s : Store) (q : Contact.t -> bool)
      (c : Contact.t) :
  filter (fun x => q x && repository_contacts.owned_by user x) (contacts s) = [c] ->
  own user s c.
Proof.
  intros Hf.
  apply (filter_own user s (fun x => q x && repository_contacts.owned_by user x)).
  - intros x Ex. now apply andb_true_iff in Ex.
  - rewrite Hf. now left.
Qed.

Lemma update_contact_scoped (user : User.t) (s : Store) (body : ContactSchema.t)
      (contact_id : Z) (now : Z) :
  wf_store s ->
  spares_foreign user s (routes_contacts.update_contact body contact_id user now) /\
  forall c s', routes_contacts.update_contact body contact_id user now s = (inr c, s') ->
               own user s' c.
Proof.
  intros Hwf. unfold spares_foreign. rewrite update_contact_cases.
  destruct (contact_id <? 1);
    [split; [intros r s' E; injection E as <- <-; auto | discriminate]|].
  destruct (filter _ (contacts s)) as [|c [|c2 l]] eqn:Hf;
    try (split; [intros r s' E; injection E as <- <-; auto | discriminate]).
  pose proof (filter_singleton_own user s _ c Hf) as Hown.
  destruct (repository_contacts.same_fields c body).
  { split; [intros r s' E; injection E as <- <-; auto|].
    intros c' s' E. injection E as <- <-. exact Hown. }
  destruct (existsb _ (contacts s));
    [split; [intros r s' E; injection E as <- <-; auto | discriminate]|].
  split.
  - intros r s' E. injection E as <- <-. unfold foreign.
    cbn [with_contacts contacts users password_reset_tokens].
    split; [|auto]. apply filter_map_fixed.
    + intros x Hx Hforeign.
      destruct (Contact.id x =? Contact.id c) eqn:Eid; [|reflexivity].
      rewrite (same_id_owned user s c x Hwf Hown Hx Eid) in Hforeign. discriminate.
    + intros x _ Hx. destruct (Contact.id x =? Contact.id c); exact Hx.
  - intros c' s' E. injection E as <- <-. destruct Hown as [Hin Hu].
    split; [|exact Hu]. cbn [with_contacts contacts].
    apply in_map_iff. exists c. split; [now rewrite Z.eqb_refl | exact Hin].
Qed.

Lemma remove_contact_scoped (user : User.t) (s : Store) (contact_id : Z) :
  wf_store s ->
  spares_foreign user s (routes_contacts.remove_contact contact_id user).
Proof.
  intros Hwf. unfold spares_foreign. rewrite remove_contact_cases.
  destruct (contact_id <? 1); [intros r s' E; injection E as <- <-; now auto|].
  destruct (filter _ (contacts s)) as [|c [|c2 l]] eqn:Hf;
    try (intros r s' E; injection E as <- <-; now auto).
  pose proof (filter_singleton_own user s _ c Hf) as Hown.
  intros r s' E. injection E as <- <-. unfold foreign.
  cbn [with_contacts contacts users password_reset_tokens].
  split; [|auto]. apply filter_filter_implied.
  intros x Hx Hforeign.
  destruct (Contact.id x =? Contact.id c) eqn:Eid; [|reflexivity].
  rewrite (same_id_owned user s c x Hwf Hown Hx Eid) in Hforeign. discriminate.
Qed.

(** C8.  Through the identity of [user], every contact operation returns
    rows owned by [user] only, and create, update and delete leave each
    row of another owner in place and unchanged; a created or updated row
    is owned by [user]. *)
Theorem contacts_owner_scoped (user : User.t) (s : Store) :
  wf_store s ->
  (forall limit offset,
     reads_own_list user s (routes_contacts.read_all_contacts limit offset user)) /\
  (forall today, reads_own_list user s (routes_contacts.read_birthday today user)) /\
  (forall contact_id,
     reads_own_one user s (routes_contacts.read_by_contact_id contact_id user)) /\
  (forall name, reads_own_list user s (routes_contacts.read_contact_first_name name user)) /\
  (forall name, reads_own_list user s (routes_contacts.read_contact_last_name name user)) /\
  (forall email, reads_own_one user s (routes_contacts.read_contact_email email user)) /\
  (forall body now,
     spares_foreign user s (routes_contacts.create_contact body user now) /\
     forall c s', routes_contacts.create_contact body user now s = (inr c, s') ->
                  own user s' c) /\
  (forall body contact_id now,
     spares_foreign user s (routes_contacts.update_contact body contact_id user now) /\
     forall c s', routes_contacts.update_contact body contact_id user now s = (inr c, s') ->
                  own user s' c) /\
  (forall contact_id,
     spares_foreign user s (routes_contacts.remove_contact contact_id user)).
Proof.
  intros Hwf.
  split; [intros; apply read_all_contacts_own|].
  split; [intros; apply read_birthday_own|].
  split; [intros; apply read_by_contact_id_own|].
  split; [intros; apply read_contact_first_name_own|].
  split; [intros; apply read_contact_last_name_own|].
  split; [intros; apply read_contact_email_own|].
  split; [intros; apply create_contact_scoped|].
  split; [intros; now apply update_contact_scoped|].
  intros. now apply remove_contact_scoped.
Qed.

Lemma contacts_owner_scoped_witness :
  (forall limit offset,
     reads_own_list demo.alice demo.store
       (routes_contacts.read_all_contacts limit offset demo.alice)) /\
  (forall today,
     reads_own_list demo.alice demo.store (routes_contacts.read_birthday today demo.alice)) /\
  (forall contact_id,
     reads_own_one demo.alice demo.store
       (routes_contacts.read_by_contact_id contact_id demo.alice)) /\
  (forall name,
     reads_own_list demo.alice demo.store
       (routes_contacts.read_contact_first_name name demo.alice)) /\
  (forall name,
     reads_own_list demo.alice demo.store
       (routes_contacts.read_contact_last_name name demo.alice)) /\
  (forall email,
     reads_own_one demo.alice demo.store
       (routes_contacts.read_contact_email email demo.alice)) /\
  (forall body now,
     spares_foreign demo.alice demo.store
       (routes_contacts.create_contact body demo.alice now) /\
     forall c s', routes_contacts.create_contact body demo.alice now demo.store = (inr c, s') ->
                  own demo.alice s' c) /\
  (forall body contact_id now,
     spares_foreign demo.alice demo.store
       (routes_contacts.update_contact body contact_id demo.alice now) /\
     forall c s',
       routes_contacts.update_contact body contact_id demo.alice now demo.store = (inr c, s') ->
       own demo.alice s' c) /\
  (forall contact_id,
     spares_foreign demo.alice demo.store
       (routes_contacts.remove_contact contact_id demo.alice)).
Proof.
  apply (contacts_owner_scoped demo.alice demo.store). exact demo_store_wf.
Defined.

(** On the demo store: alice reads her two contacts, cannot read, update
    or delete the contact of bob by its id, and bob can. *)
Example contacts_owner_scoped_run :
  routes_contacts.read_all_contacts 10 0 demo.alice demo.store
  = (inr [demo.may_11; demo.may_4], demo.store) /\
  routes_contacts.read_by_contact_id 3 demo.alice demo.store
  = (inl (HTTPException 404 (Literal "Contact not found")), demo.store) /\
  routes_contacts.update_contact
    (ContactSchema.mk "X" "Y" "x@example.com" "999" (date.mk 2000 1 1)) 3 demo.alice 50
    demo.store
  = (inl (HTTPException 404 (Literal "Contact not found")), demo.store) /\
  routes_contacts.remove_contact 3 demo.alice demo.store
  = (inl (HTTPException 404 (Literal "Contact not found")), demo.store) /\
  fst (routes_contacts.remove_contact 3 demo.bob demo.store) = inr tt.
Proof. repeat split. Qed.

(* ------------------------------------------------------------------ *)
(** ** The schema's constraints are kept by the handlers

    [wf_store] holds of the empty store and of every store a handler
    leaves behind, so it holds along every run of the service. *)

Lemma empty_store_wf : wf_store empty_store.
Proof. constructor; cbn; try constructor; intros x []. Qed.

Lemma NoDup_map_filter {A K} (key : A -> K) (p : A -> bool) (l : list A) :
  NoDup (map key l) -> NoDup (map key (filter p l)).
Proof.
  induction l as [|a l IH]; intros Hnd; [constructor|].
  cbn in Hnd. inversion Hnd as [|? ? Hnotin Hnd']; subst. cbn.
  destruct (p a); [|now apply IH].
  cbn. constructor; [|now apply IH].
  intros Hin. apply Hnotin. apply in_map_iff in Hin.
  destruct Hin as [x [Hk Hx]]. apply filter_In in Hx.
  rewrite <- Hk. apply in_map. tauto.
Qed.

Lemma NoDup_map_snoc {A K} (key : A -> K) (l : list A) (a : A) :
  NoDup (map key l) -> (forall x, In x l -> key x <> key a) ->
  NoDup (map key (l ++ [a])).
Proof.
  intros Hnd Hfresh. rewrite map_app. cbn.
  induction l as [|b l IH]; cbn.
  - constructor; [intros []|constructor].
  - cbn in Hnd. inversion Hnd as [|? ? Hnotin Hnd']; subst. constructor.
    + intros Hin. apply in_app_or in Hin. destruct Hin as [Hin|[E|[]]].
      * contradiction.
      * apply (Hfresh b); [now left | now symmetry].
    + apply IH; [exact Hnd'|]. intros x Hx. apply Hfresh. now right.
Qed.

Lemma map_map_same {A K} (key : A -> K) (g : A -> A) (l : list A) :
  (forall x, key (g x) = key x) -> map key (map g l) = map key l.
Proof.
  intros Hg. rewrite map_map. apply map_ext. exact Hg.
Qed.

Lemma flush_row_keys (uid : Z) (unchanged : User.t -> bool) (write : User.t -> User.t)
      (now : Z) (x : User.t) :
  User.id (write x) = User.id x -> User.email (write x) = User.email x ->
  User.id (repositories_users.flush_row uid unchanged write now x) = User.id x /\
  User.email (repositories_users.flush_row uid unchanged write now x) = User.email x.
Proof.
  intros Hid Hmail. unfold repositories_users.flush_row.
  destruct (User.id x =? uid); [|now split].
  destruct (unchanged x); [now split|]. cbn. now split.
Qed.

Lemma wf_with_users_map (s : Store) (g : User.t -> User.t) :
  (forall x, User.id (g x) = User.id x) ->
  (forall x, User.email (g x) = User.email x) ->
  wf_store s -> wf_store (with_users s (map g (users s))).
Proof.
  intros Hid Hmail Hwf. destruct Hwf. constructor; cbn; auto.
  - now rewrite (map_map_same User.id g).
  - now rewrite (map_map_same User.email g).
  - intros u Hu. apply in_map_iff in Hu. destruct Hu as [x [<- Hx]].
    rewrite Hid. auto.
Qed.

Lemma flush_user_wf (s : Store) (uid : Z) (unchanged : User.t -> bool)
      (write : User.t -> User.t) (now : Z) :
  (forall x, User.id (write x) = User.id x) ->
  (forall x, User.email (write x) = User.email x) ->
  wf_store s ->
  wf_store (snd (repositories_users.flush_user uid unchanged write now s)).
Proof.
  intros Hid Hmail Hwf. unfold repositories_users.flush_user. run. cbn [snd].
  apply wf_with_users_map; [| |exact Hwf]; intros x;
    now apply flush_row_keys.
Qed.

Lemma signup_wf `{AuthService} `{Gravatar}
      (s : Store) (body : UserSchema.t) (base_url : string) (now : Z) :
  wf_store s -> wf_store (snd (routes_auth.signup body base_url now s)).
Proof.
  intros Hwf.
  unfold routes_auth.signup, repositories_users.create_user,
    repositories_users.get_user_by_email. run.
  destruct (filter _ (users s)) as [|u [|u2 l]]; try exact Hwf. run.
  cbn [UserSchema.email UserSchema.set_password].
  destruct (existsb _ (users s)) eqn:Ex; run; cbn [snd]; [exact Hwf|].
  assert (Hfresh : forall x, In x (users s) -> User.email x <> UserSchema.email body).
  { intros x Hx E.
    assert (existsb (fun u => String.eqb (User.email u) (UserSchema.email body))
                    (users s) = true) as Ht
        by (apply existsb_exists; exists x; split; [exact Hx | now apply String.eqb_eq]).
    rewrite Ht in Ex. discriminate. }
  destruct Hwf. constructor; cbn; auto.
  - apply NoDup_map_snoc; [assumption|]. intros x Hx. cbn.
    specialize (wf_user_seq0 x Hx). lia.
  - apply NoDup_map_snoc; [assumption|]. intros x Hx. cbn. now apply Hfresh.
  - intros u Hu. apply in_app_or in Hu. destruct Hu as [Hu|[<-|[]]]; cbn.
    + specialize (wf_user_seq0 u Hu). lia.
    + lia.
Qed.

Lemma login_wf `{AuthService} (s : Store) (username password : string) (now : Z) :
  wf_store s -> wf_store (snd (routes_auth.login username password now s)).
Proof.
  intros Hwf. rewrite login_cases.
  destruct (filter _ (users s)) as [|u [|u2 l]]; try exact Hwf.
  destruct (negb (User.confirmed u)); [exact Hwf|].
  destruct (negb (verify_password password (User.password u))); [exact Hwf|].
  cbn [snd]. apply wf_with_users_map; [| |exact Hwf]; intros x;
    now apply flush_row_keys.
Qed.

Lemma refresh_token_wf `{AuthService} (s : Store) (t : string) (now : Z) :
  wf_store s -> wf_store (snd (routes_auth.refresh_token t now s)).
Proof.
  intros Hwf.
  unfold routes_auth.refresh_token, repositories_users.get_user_by_email,
    repositories_users.update_token, repositories_users.flush_user. run.
  destruct (decode_refresh_token t) as [err|e]; [exact Hwf|].
  destruct (filter _ (users s)) as [|u [|u2 l]]; try exact Hwf.
  destruct (negb (option_eqb String.eqb (User.refresh_token u) (Some t)));
    cbn [snd]; (apply wf_with_users_map; [| |exact Hwf]); intros x;
    now apply flush_row_keys.
Qed.

Lemma reset_password_wf `{AuthService} (s : Store) (tok pw : string) (now : Z) :
  wf_store s -> wf_store (snd (routes_auth.reset_password tok pw now s)).
Proof.
  intros Hwf. rewrite reset_password_cases.
  destruct (scalar (filter _ (password_reset_tokens s))) as [r|]; [|exact Hwf].
  destruct (PasswordResetToken.expiration r <? now); [exact Hwf|].
  destruct (scalar (filter _ (users s))) as [u|]; [|exact Hwf].
  cbn [snd]. unfold after_reset.
  assert (Hu : wf_store
                 (with_users s
                    (map (repositories_users.flush_row (User.id u)
                            (fun x => String.eqb (User.password x) (get_password_hash pw))
                            (fun x => User.set_password x (get_password_hash pw)) now)
                         (users s)))).
  { apply wf_with_users_map; [| |exact Hwf]; intros x; now apply flush_row_keys. }
  destruct Hu, Hwf. constructor; cbn in *; auto.
  - now apply NoDup_map_filter.
  - now apply NoDup_map_filter.
  - intros x Hx. apply filter_In in Hx. now apply wf_token_seq1.
Qed.

Lemma password_reset_request_wf `{AuthService} (s : Store) (email : string) (draw now : Z) :
  wf_store s -> wf_store (snd (routes_auth.password_reset_request email draw now s)).
Proof.
  intros Hwf.
  unfold routes_auth.password_reset_request, repositories_users.get_user_by_email. run.
  destruct (filter _ (users s)) as [|u [|u2 l]]; try exact Hwf. run.
  destruct (existsb _ (password_reset_tokens s)) eqn:Ex; run; cbn [snd]; [exact Hwf|].
  assert (Hfresh : forall x, In x (password_reset_tokens s) ->
                             PasswordResetToken.token x <> generate_reset_token draw).
  { intros x Hx E.
    assert (existsb (fun r => String.eqb (PasswordResetToken.token r)
                                         (generate_reset_token draw))
                    (password_reset_tokens s) = true) as Ht
        by (apply existsb_exists; exists x; split; [exact Hx | now apply String.eqb_eq]).
    rewrite Ht in Ex. discriminate. }
  destruct Hwf. constructor; cbn; auto.
  - apply NoDup_map_snoc; [assumption|]. intros x Hx. cbn.
    specialize (wf_token_seq0 x Hx). lia.
  - apply NoDup_map_snoc; [assumption|]. intros x Hx. cbn. now apply Hfresh.
  - intros r Hr. apply in_app_or in Hr. destruct Hr as [Hr|[<-|[]]]; cbn.
    + specialize (wf_token_seq0 r Hr). lia.
    + lia.
Qed.

Lemma NoDup_map_update {A K} (key : A -> K) (f : A -> A) (p : A -> bool) (l : list A) :
  NoDup (map key l) ->
  (forall x, In x l -> p x = false -> f x = x) ->
  (forall x y, In x l -> In y l -> p x = true -> p y = true -> x = y) ->
  (forall x y, In x l -> In y l -> p x = true -> p y = false -> key (f x) <> key y) ->
  NoDup (map key (map f l)).
Proof.
  induction l as [|a l IH]; intros Hnd Hfix Hone Hfresh; [constructor|].
  cbn in Hnd. inversion Hnd as [|? ? Hnotin Hnd']; subst. cbn. constructor.
  - intros Hin. apply in_map_iff in Hin. destruct Hin as [fy [Hk Hfy]].
    apply in_map_iff in Hfy. destruct Hfy as [y [<- Hy]].
    destruct (p a) eqn:Ea, (p y) eqn:Ey.
    + assert (a = y) as -> by (apply Hone; auto; [now left | now right]).
      apply Hnotin. now apply in_map.
    + rewrite (Hfix y) in Hk by (auto; now right).
      apply (Hfresh a y); auto; [now left | now right].
    + rewrite (Hfix a) in Hk by (auto; now left).
      apply (Hfresh y a); auto; [now right | now left].
    + rewrite (Hfix a) in Hk by (auto; now left).
      rewrite (Hfix y) in Hk by (auto; now right).
      apply Hnotin. rewrite <- Hk. now apply in_map.
  - apply IH; auto.
    + intros x Hx. apply Hfix. now right.
    + intros x y Hx Hy. apply Hone; now right.
    + intros x y Hx Hy. apply Hfresh; now right.
Qed.

Lemma create_contact_wf (s : Store) (body : ContactSchema.t) (user : User.t) (now : Z) :
  wf_store s -> wf_store (snd (routes_contacts.create_contact body user now s)).
Proof.
  intros Hwf.
  unfold routes_contacts.create_contact, repository_contacts.create_contact. run.
  destruct (existsb _ (contacts s)) eqn:Ex; run; cbn [snd]; [exact Hwf|].
  assert (Hfresh : forall x, In x (contacts s) ->
                     Contact.email x <> ContactSchema.email body /\
                     Contact.phone_number x <> ContactSchema.phone_number body).
  { intros x Hx.
    destruct (String.eqb (Contact.email x) (ContactSchema.email body)
              || String.eqb (Contact.phone_number x) (ContactSchema.phone_number body))
      eqn:E.
    - assert (existsb (fun c => String.eqb (Contact.email c) (ContactSchema.email body)
                                || String.eqb (Contact.phone_number c)
                                              (ContactSchema.phone_number body))
                      (contacts s) = true) as Ht
          by (apply existsb_exists; exists x; now split).
      rewrite Ht in Ex. discriminate.
    - apply orb_false_iff in E. destruct E as [E1 E2].
      split; now apply String.eqb_neq. }
  destruct Hwf. constructor; cbn; auto.
  - apply NoDup_map_snoc; [assumption|]. intros x Hx. cbn.
    specialize (wf_contact_seq0 x Hx). lia.
  - apply NoDup_map_snoc; [assumption|]. intros x Hx. cbn. now apply Hfresh.
  - apply NoDup_map_snoc; [assumption|]. intros x Hx. cbn. now apply Hfresh.
  - intros c Hc. apply in_app_or in Hc. destruct Hc as [Hc|[<-|[]]]; cbn.
    + specialize (wf_contact_seq0 c Hc). lia.
    + lia.
Qed.

Lemma remove_contact_wf (s : Store) (contact_id : Z) (user : User.t) :
  wf_store s -> wf_store (snd (routes_contacts.remove_contact contact_id user s)).
Proof.
  intros Hwf. rewrite remove_contact_cases.
  destruct (contact_id <? 1); [exact Hwf|].
  destruct (filter _ (contacts s)) as [|c [|c2 l]]; try exact Hwf.
  cbn [snd]. destruct Hwf. constructor; cbn; auto using NoDup_map_filter.
  intros x Hx. apply filter_In in Hx. now apply wf_contact_seq0.
Qed.

Lemma update_contact_wf (s : Store) (body : ContactSchema.t) (contact_id : Z)
      (user : User.t) (now : Z) :
  wf_store s ->
  wf_store (snd (routes_contacts.update_contact body contact_id user now s)).
Proof.
  intros Hwf. rewrite update_contact_cases.
  destruct (contact_id <? 1); [exact Hwf|].
  destruct (filter _ (contacts s)) as [|c [|c2 l]] eqn:Hf; try exact Hwf.
  destruct (repository_contacts.same_fields c body); [exact Hwf|].
  destruct (existsb _ (contacts s)) eqn:Ex; [exact Hwf|]. cbn [snd].
  set (p := fun x => Contact.id x =? Contact.id c).
  set (f := fun x => if Contact.id x =? Contact.id c
                     then repository_contacts.assign x body now else x).
  assert (Hfresh : forall y, In y (contacts s) -> p y = false ->
                     Contact.email y <> ContactSchema.email body /\
                     Contact.phone_number y <> ContactSchema.phone_number body).
  { intros y Hy Hp. unfold p in Hp.
    destruct (String.eqb (Contact.email y) (ContactSchema.email body)
              || String.eqb (Contact.phone_number y) (ContactSchema.phone_number body))
      eqn:E.
    - assert (existsb (fun x => negb (Contact.id x =? Contact.id c)
                                && (String.eqb (Contact.email x) (ContactSchema.email body)
                                    || String.eqb (Contact.phone_number x)
                                                  (ContactSchema.phone_number body)))
                      (contacts s) = true) as Ht.
      { apply existsb_exists. exists y. split; [exact Hy|]. now rewrite Hp, E. }
      rewrite Ht in Ex. discriminate.
    - apply orb_false_iff in E. destruct E as [E1 E2].
      split; now apply String.eqb_neq. }
  assert (Hfix : forall x, In x (contacts s) -> p x = false -> f x = x).
  { intros x _ Hp. unfold f. unfold p in Hp. now rewrite Hp. }
  assert (Hone : forall x y, In x (contacts s) -> In y (contacts s) ->
                             p x = true -> p y = true -> x = y).
  { intros x y Hx Hy Hpx Hpy. unfold p in *.
    apply Z.eqb_eq in Hpx, Hpy.
    apply (NoDup_map_inj Contact.id (contacts s)); auto; [apply Hwf | congruence]. }
  assert (Hid : forall x, Contact.id (f x) = Contact.id x).
  { intros x. unfold f. now destruct (Contact.id x =? Contact.id c). }
  destruct Hwf. constructor; cbn; auto.
  - fold f. now rewrite (map_map_same Contact.id f).
  - fold f. apply (NoDup_map_update Contact.email f p); auto.
    intros x y Hx Hy Hpx Hpy. unfold f. unfold p in Hpx. rewrite Hpx. cbn.
    intros E. destruct (Hfresh y Hy Hpy) as [Hmail _]. apply Hmail. now symmetry.
  - fold f. apply (NoDup_map_update Contact.phone_number f p); auto.
    intros x y Hx Hy Hpx Hpy. unfold f. unfold p in Hpx. rewrite Hpx. cbn.
    intros E. destruct (Hfresh y Hy Hpy) as [_ Hphone]. apply Hphone. now symmetry.
  - fold f. intros x Hx. apply in_map_iff in Hx. destruct Hx as [y [<- Hy]].
    rewrite Hid. auto.
Qed.

(* ================================================================== *)
(** * Further properties of the handlers *)

Lemma store_two_resets_wf : wf_store demo.store_two_resets.
Proof.
  constructor; cbn; try nodup_closed;
    intros x Hx; repeat (destruct Hx as [<-|Hx]; [cbn; lia|]); destruct Hx.
Qed.


(** ** Sessions *)

(** The refresh token that is the stored one is accepted and replaced. *)
Lemma refresh_token_current `{AuthService} (s : Store) (t e : string) (u : User.t) (now : Z) :
  decode_refresh_token t = inr e ->
  filter (fun x => String.eqb (User.email x) e) (users s) = [u] ->
  User.refresh_token u = Some t ->
  exists s' u',
    routes_auth.refresh_token t now s
    = (inr (TokenSchema.mk (create_access_token now e) (create_refresh_token now e)
                           "bearer"), s') /\
    filter (fun x => String.eqb (User.email x) e) (users s') = [u'] /\
    User.refresh_token u' = Some (create_refresh_token now e).
Proof.
  intros Hd Hf Hcur.
  destruct (flush_user_lookup s e u
              (fun r => option_eqb String.eqb (User.refresh_token r)
                                   (Some (create_refresh_token now e)))
              (fun r => User.set_refresh_token r (Some (create_refresh_token now e))) now)
    as (s' & Hrun & _ & _ & _ & Hf'); [reflexivity | exact Hf |].
  exists s'. eexists. split; [|split; [exact Hf'|]].
  - unfold routes_auth.refresh_token, repositories_users.get_user_by_email,
      repositories_users.update_token. run. rewrite Hd, Hf. run.
    rewrite Hcur. cbn [option_eqb]. rewrite String.eqb_refl. cbn [negb].
    run. now rewrite Hrun.
  - destruct (option_eqb String.eqb (User.refresh_token u)
                         (Some (create_refresh_token now e))) eqn:E;
      [now apply option_string_eqb_eq in E | reflexivity].
Qed.

(** What a successful login did. *)
Lemma login_success_inv `{AuthService} (s s1 : Store) (username password : string)
      (now : Z) (resp : TokenSchema.t) :
  routes_auth.login username password now s = (inr resp, s1) ->
  exists u u1,
    filter (fun x => String.eqb (User.email x) username) (users s) = [u] /\
    User.confirmed u = true /\
    verify_password password (User.password u) = true /\
    resp = TokenSchema.mk (create_access_token now username)
                          (create_refresh_token now username) "bearer" /\
    filter (fun x => String.eqb (User.email x) username) (users s1) = [u1] /\
    User.refresh_token u1 = Some (create_refresh_token now username) /\
    contacts s1 = contacts s /\
    password_reset_tokens s1 = password_reset_tokens s.
Proof.
  rewrite login_cases.
  destruct (filter _ (users s)) as [|u [|u2 l]] eqn:Hf; try discriminate.
  assert (He : User.email u = username).
  { assert (Hin : In u (filter (fun x => String.eqb (User.email x) username) (users s)))
      by (rewrite Hf; now left).
    now apply (filter_key_In User.email String.eqb String.eqb_eq) in Hin. }
  destruct (User.confirmed u) eqn:Hc; cbn [negb]; [|discriminate].
  destruct (verify_password password (User.password u)) eqn:Hv; cbn [negb];
    [|discriminate].
  rewrite He. intros E. injection E as <- <-.
  exists u. eexists.
  split; [reflexivity|]. split; [exact Hc|]. split; [exact Hv|].
  split; [reflexivity|].
  split; [|split; [|split; reflexivity]].
  - cbn [with_users users]. rewrite filter_map_commute.
    + rewrite Hf. cbn [map]. reflexivity.
    + intros x. unfold repositories_users.flush_row.
      destruct (User.id x =? User.id u); [|reflexivity].
      now destruct (option_eqb String.eqb (User.refresh_token x) _).
  - unfold repositories_users.flush_row. rewrite Z.eqb_refl.
    destruct (option_eqb String.eqb (User.refresh_token u)
                         (Some (create_refresh_token now username))) eqn:E;
      [now apply option_string_eqb_eq in E | reflexivity].
Qed.

(** X1.  Presenting a refresh token that is not the user's stored one does
    more than fail: the stored token is cleared, so afterwards every
    refresh token of that user, the one that was current included, is
    refused with 401 until the next login. *)
Theorem stale_refresh_token_revokes_session `{AuthService}
        (s : Store) (t e : string) (u : User.t) (now : Z) :
  decode_refresh_token t = inr e ->
  repositories_users.get_user_by_email e s = (inr (Some u), s) ->
  User.refresh_token u <> Some t ->
  exists s',
    routes_auth.refresh_token t now s
    = (inl (HTTPException 401 INVALID_REFRESH_TOKEN), s') /\
    forall t2 now2,
      decode_refresh_token t2 = inr e ->
      exists s'',
        routes_auth.refresh_token t2 now2 s'
        = (inl (HTTPException 401 INVALID_REFRESH_TOKEN), s'').
Proof.
  intros Hd Hlook Hne.
  apply get_user_by_email_inv in Hlook. destruct Hlook as [_ Hf].
  destruct (refresh_token_stale s t e u now Hd Hf Hne) as (s' & u' & Hr & Hf' & Hn).
  exists s'. split; [exact Hr|].
  intros t2 now2 Hd2.
  destruct (refresh_token_stale s' t2 e u' now2 Hd2 Hf') as (s'' & _ & Hr2 & _).
  - rewrite Hn. discriminate.
  - now exists s''.
Qed.

(** X2.  The refresh token a login returns is accepted by the next refresh
    call, provided the token service decodes it to the login's email; the
    call answers with a new pair and stores the new refresh token. *)
Theorem login_then_refresh `{AuthService}
        (s s1 : Store) (username password : string) (now now2 : Z)
        (resp : TokenSchema.t) :
  routes_auth.login username password now s = (inr resp, s1) ->
  decode_refresh_token (TokenSchema.refresh_token resp) = inr username ->
  exists s2 u2,
    routes_auth.refresh_token (TokenSchema.refresh_token resp) now2 s1
    = (inr (TokenSchema.mk (create_access_token now2 username)
                           (create_refresh_token now2 username) "bearer"), s2) /\
    repositories_users.get_user_by_email username s2 = (inr (Some u2), s2) /\
    User.refresh_token u2 = Some (create_refresh_token now2 username).
Proof.
  intros Hlogin Hd.
  destruct (login_success_inv s s1 username password now resp Hlogin)
    as (u & u1 & _ & _ & _ & -> & Hf1 & Ht1 & _).
  cbn [TokenSchema.refresh_token] in *.
  destruct (refresh_token_current s1 _ username u1 now2 Hd Hf1 Ht1)
    as (s2 & u2 & Hr & Hf2 & Ht2).
  exists s2, u2. split; [exact Hr|].
  split; [now apply get_user_by_email_of_filter | exact Ht2].
Qed.

(** X3.  One refresh token per user: after a successful login, any other
    refresh token of that user, such as the one of an earlier login, is
    refused with 401. *)
Theorem login_invalidates_other_refresh_tokens `{AuthService}
        (s s1 : Store) (username password : string) (now now2 : Z)
        (resp : TokenSchema.t) (t : string) :
  routes_auth.login username password now s = (inr resp, s1) ->
  decode_refresh_token t = inr username ->
  t <> TokenSchema.refresh_token resp ->
  exists s2,
    routes_auth.refresh_token t now2 s1
    = (inl (HTTPException 401 INVALID_REFRESH_TOKEN), s2).
Proof.
  intros Hlogin Hd Hne.
  destruct (login_success_inv s s1 username password now resp Hlogin)
    as (u & u1 & _ & _ & _ & -> & Hf1 & Ht1 & _).
  cbn [TokenSchema.refresh_token] in Hne.
  destruct (refresh_token_stale s1 t username u1 now2 Hd Hf1) as (s2 & _ & Hr & _).
  - rewrite Ht1. intros E. injection E as E. now symmetry in E.
  - now exists s2.
Qed.

Section sessions_on_demo.
Import demo.

Lemma stale_refresh_token_revokes_session_witness :
  exists s',
    routes_auth.refresh_token "alice@example.com#refresh#old" 50 store
    = (inl (HTTPException 401 INVALID_REFRESH_TOKEN), s') /\
    forall t2 now2,
      decode_refresh_token t2 = inr "alice@example.com" ->
      exists s'',
        routes_auth.refresh_token t2 now2 s'
        = (inl (HTTPException 401 INVALID_REFRESH_TOKEN), s'').
Proof.
  apply (stale_refresh_token_revokes_session store _ "alice@example.com" alice 50).
  - reflexivity.
  - reflexivity.
  - cbn. discriminate.
Defined.

Lemma login_then_refresh_witness :
  exists resp s1 s2 u2,
    routes_auth.login "alice@example.com" "secret" 50 store = (inr resp, s1) /\
    routes_auth.refresh_token (TokenSchema.refresh_token resp) 150 s1
    = (inr (TokenSchema.mk (create_access_token 150 "alice@example.com")
                           (create_refresh_token 150 "alice@example.com") "bearer"), s2) /\
    repositories_users.get_user_by_email "alice@example.com" s2 = (inr (Some u2), s2) /\
    User.refresh_token u2 = Some (create_refresh_token 150 "alice@example.com").
Proof.
  eexists. eexists.
  assert (Hlogin : routes_auth.login "alice@example.com" "secret" 50 store
                   = (inr (TokenSchema.mk "alice@example.com#access#mid"
                                          "alice@example.com#refresh#mid" "bearer"),
                      snd (routes_auth.login "alice@example.com" "secret" 50 store)))
    by (vm_compute; reflexivity).
  destruct (login_then_refresh store _ "alice@example.com" "secret" 50 150 _ Hlogin)
    as (s2 & u2 & Hr & Hl & Ht); [reflexivity|].
  exists s2, u2. split; [exact Hlogin|]. split; [exact Hr|]. now split.
Defined.

Lemma login_invalidates_other_refresh_tokens_witness :
  exists s2,
    routes_auth.refresh_token "alice@example.com#refresh#early" 150
      (snd (routes_auth.login "alice@example.com" "secret" 50 store))
    = (inl (HTTPException 401 INVALID_REFRESH_TOKEN), s2).
Proof.
  apply (login_invalidates_other_refresh_tokens store _ "alice@example.com" "secret"
           50 150 (TokenSchema.mk "alice@example.com#access#mid"
                                  "alice@example.com#refresh#mid" "bearer")).
  - vm_compute. reflexivity.
  - reflexivity.
  - cbn. discriminate.
Defined.

End sessions_on_demo.

(** ** From signup to the first login *)

(** A first confirmation, read on the row that the lookup finds. *)
Lemma confirmed_email_first `{AuthService} (s : Store) (token e : string) (u : User.t)
      (now : Z) :
  get_email_from_token token = inr e ->
  filter (fun x => String.eqb (User.email x) e) (users s) = [u] ->
  User.confirmed u = false ->
  exists s1,
    routes_auth.confirmed_email token now s = (inr "Email confirmed", s1) /\
    filter (fun x => String.eqb (User.email x) e) (users s1)
    = [User.set_updated_at (User.set_confirmed u true) now] /\
    contacts s1 = contacts s /\
    password_reset_tokens s1 = password_reset_tokens s.
Proof.
  intros Hd Hf Hc.
  destruct (flush_user_lookup s e u
              (fun r => Bool.eqb (User.confirmed r) true)
              (fun r => User.set_confirmed r true) now)
    as (s1 & Hrun & Hcs & Hts & _ & Hf1); [reflexivity | exact Hf |].
  rewrite Hc in Hf1. cbn [Bool.eqb] in Hf1.
  exists s1. split; [|auto].
  unfold routes_auth.confirmed_email, repositories_users.confirmed_email. run.
  rewrite Hd. run. rewrite (get_user_by_email_of_filter s _ u Hf). run.
  rewrite Hc. run. rewrite (get_user_by_email_of_filter s _ u Hf). run.
  now rewrite Hrun.
Qed.


(** X5.  Email confirmation is a one-way switch: for an unconfirmed user
    the first use of the link answers "Email confirmed", and the same link
    used again answers "Your email is already confirmed" and leaves the
    store as the first use left it. *)
Theorem confirmed_email_once_then_noop `{AuthService}
        (s : Store) (token : string) (u : User.t) (now now2 : Z) :
  wf_store s ->
  In u (users s) ->
  get_email_from_token token = inr (User.email u) ->
  User.confirmed u = false ->
  exists s1 u1,
    routes_auth.confirmed_email token now s = (inr "Email confirmed", s1) /\
    repositories_users.get_user_by_email (User.email u) s1 = (inr (Some u1), s1) /\
    User.confirmed u1 = true /\
    User.password u1 = User.password u /\
    User.refresh_token u1 = User.refresh_token u /\
    routes_auth.confirmed_email token now2 s1
    = (inr "Your email is already confirmed", s1).
Proof.
  intros Hwf Hu Hd Hc.
  pose proof (lookup_user_of_token s u Hwf Hu) as Hf.
  destruct (confirmed_email_first s token _ u now Hd Hf Hc) as (s1 & H1 & Hf1 & _).
  exists s1. eexists. split; [exact H1|].
  split; [apply get_user_by_email_of_filter; exact Hf1|].
  repeat (split; [reflexivity|]).
  unfold routes_auth.confirmed_email. run. rewrite Hd. run.
  rewrite (get_user_by_email_of_filter s1 _ _ Hf1). run. reflexivity.
Qed.

(** X6.  Confirmation with a token whose email has no user fails with 400
    (verification error) and changes nothing; a token the service refuses
    fails with the service's exception and changes nothing either. *)
Theorem confirmed_email_rejections `{AuthService} (s : Store) (token : string) (now : Z) :
  (forall e, get_email_from_token token = inr e ->
             (forall u, In u (users s) -> User.email u <> e) ->
             routes_auth.confirmed_email token now s
             = (inl (HTTPException 400 VERIFICATION_ERROR), s)) /\
  (forall err, get_email_from_token token = inl err ->
               routes_auth.confirmed_email token now s = (inl err, s)).
Proof.
  split.
  - intros e Hd Hno. unfold routes_auth.confirmed_email. run. rewrite Hd. run.
    rewrite (get_user_by_email_unknown s e Hno). run. reflexivity.
  - intros err Hd. unfold routes_auth.confirmed_email. run. now rewrite Hd.
Qed.

(** X7.  For a user that exists, the confirmation resend never raises and
    never touches the store: a confirmed user gets the already-confirmed
    message and no email, an unconfirmed one gets the check-your-email
    message and exactly one confirmation email is scheduled, addressed to
    the stored email and username. *)
Theorem request_email_for_existing_user (s : Store) (u : User.t) (base_url : string) :
  wf_store s -> In u (users s) ->
  (User.confirmed u = true ->
   routes_auth.request_email (User.email u) base_url s
   = (inr ("Your email is already confirmed", []), s)) /\
  (User.confirmed u = false ->
   routes_auth.request_email (User.email u) base_url s
   = (inr ("Check your email for confirmation.",
           [send_email (User.email u) (User.username u) base_url]), s)).
Proof.
  intros Hwf Hu. unfold routes_auth.request_email. run.
  rewrite (get_user_by_email_known s u); [|apply Hwf|exact Hu]. run.
  split; intros ->; reflexivity.
Qed.


Section accounts_on_demo.
Import demo.


Lemma confirmed_email_once_then_noop_witness :
  exists s1 u1,
    routes_auth.confirmed_email "bob@example.com#confirm" 50 store
    = (inr "Email confirmed", s1) /\
    repositories_users.get_user_by_email (User.email bob) s1 = (inr (Some u1), s1) /\
    User.confirmed u1 = true /\
    User.password u1 = User.password bob /\
    User.refresh_token u1 = User.refresh_token bob /\
    routes_auth.confirmed_email "bob@example.com#confirm" 90 s1
    = (inr "Your email is already confirmed", s1).
Proof.
  apply (confirmed_email_once_then_noop store "bob@example.com#confirm" bob 50 90).
  - exact demo_store_wf.
  - cbn. auto.
  - reflexivity.
  - reflexivity.
Defined.

Lemma confirmed_email_rejections_witness :
  routes_auth.confirmed_email "ghost@example.com#confirm" 50 store
  = (inl (HTTPException 400 VERIFICATION_ERROR), store) /\
  routes_auth.confirmed_email "#forged" 50 store
  = (inl (HTTPException 401 (Literal "Could not validate credentials")), store).
Proof.
  destruct (confirmed_email_rejections store "ghost@example.com#confirm" 50) as [Hno _].
  destruct (confirmed_email_rejections store "#forged" 50) as [_ Hbad].
  split.
  - apply (Hno "ghost@example.com"); [reflexivity|].
    intros u Hu. cbn in Hu. destruct Hu as [<-|[<-|[]]]; cbn; discriminate.
  - apply Hbad. reflexivity.
Defined.

Lemma request_email_for_existing_user_witness :
  routes_auth.request_email "alice@example.com" "http://testserver/" store
  = (inr ("Your email is already confirmed", []), store) /\
  routes_auth.request_email "bob@example.com" "http://testserver/" store
  = (inr ("Check your email for confirmation.",
          [send_email "bob@example.com" "bob" "http://testserver/"]), store).
Proof.
  split.
  - apply (request_email_for_existing_user store alice "http://testserver/");
      [exact demo_store_wf | cbn; auto | reflexivity].
  - apply (request_email_for_existing_user store bob "http://testserver/");
      [exact demo_store_wf | cbn; auto | reflexivity].
Defined.


End accounts_on_demo.

(** ** The password-reset flow, end to end *)

(** X9.  A reset request for the email of an existing user stores one row
    that expires an hour later and schedules one email carrying the token.
    A completion presenting that token up to and including the expiration
    instant sets the password and removes the row; later than that it
    fails with 400. *)
Theorem password_reset_round_trip `{AuthService}
        (s : Store) (u : User.t) (draw now now2 : Z) (pw : string) :
  wf_store s ->
  In u (users s) ->
  (forall r, In r (password_reset_tokens s) ->
             PasswordResetToken.token r <> generate_reset_token draw) ->
  exists s1,
    routes_auth.password_reset_request (User.email u) draw now s
    = (inr ("Password reset link has been sent to your email.",
            [send_password_reset_email (User.email u) (generate_reset_token draw)]), s1) /\
    password_reset_tokens s1
    = (password_reset_tokens s
         ++ [PasswordResetToken.mk (password_reset_tokens_id_seq s) (User.email u)
                                   (generate_reset_token draw) (now + 3600)])%list /\
    users s1 = users s /\
    (now2 <= now + 3600 ->
     exists s2 u2,
       routes_auth.reset_password (generate_reset_token draw) pw now2 s1
       = (inr "Password has been reset successfully.", s2) /\
       repositories_users.get_user_by_email (User.email u) s2 = (inr (Some u2), s2) /\
       User.password u2 = get_password_hash pw /\
       password_reset_tokens s2 = password_reset_tokens s) /\
    (now + 3600 < now2 ->
     routes_auth.reset_password (generate_reset_token draw) pw now2 s1
     = (inl (HTTPException 400 INVALID_OR_EXPIRED_TOKEN), s1)).
Proof.
  intros Hwf Hu Hfresh.
  pose proof (lookup_user_of_token s u Hwf Hu) as Hf.
  assert (Hex : existsb (fun r => String.eqb (PasswordResetToken.token r)
                                             (generate_reset_token draw))
                        (password_reset_tokens s) = false).
  { destruct (existsb _ (password_reset_tokens s)) eqn:E; [|reflexivity].
    apply existsb_exists in E. destruct E as [x [Hx E]].
    apply String.eqb_eq in E. exfalso. now apply (Hfresh x). }
  set (r := PasswordResetToken.mk (password_reset_tokens_id_seq s) (User.email u)
                                  (generate_reset_token draw) (now + 3600)).
  set (s1 := mkStore (users s) (contacts s) (password_reset_tokens s ++ [r])
                     (users_id_seq s) (contacts_id_seq s)
                     (password_reset_tokens_id_seq s + 1)).
  assert (Hlook : filter (fun x => String.eqb (PasswordResetToken.token x)
                                              (generate_reset_token draw))
                         (password_reset_tokens s1) = [r]).
  { cbn [s1 password_reset_tokens]. rewrite filter_app.
    rewrite (filter_key_absent PasswordResetToken.token String.eqb String.eqb_eq)
      by exact Hfresh.
    cbn. now rewrite String.eqb_refl. }
  exists s1. split; [|split; [reflexivity|split; [reflexivity|split]]].
  - unfold routes_auth.password_reset_request. run.
    rewrite (get_user_by_email_of_filter s _ u Hf). run. rewrite Hex. run.
    reflexivity.
  - intros Hlive. eexists. eexists. split; [|split; [|split]].
    + rewrite reset_password_cases, Hlook. cbn [scalar PasswordResetToken.expiration r
        PasswordResetToken.email].
      apply Z.ltb_ge in Hlive. rewrite Hlive.
      change (users s1) with (users s). rewrite Hf. cbn [scalar]. reflexivity.
    + apply get_user_by_email_of_filter. cbn [after_reset users].
      change (users s1) with (users s). rewrite filter_map_commute.
      * rewrite Hf. cbn [map]. reflexivity.
      * intros x. unfold repositories_users.flush_row.
        destruct (User.id x =? User.id u); [|reflexivity].
        now destruct (String.eqb (User.password x) (get_password_hash pw)).
    + unfold repositories_users.flush_row. rewrite Z.eqb_refl.
      destruct (String.eqb (User.password u) (get_password_hash pw)) eqn:E;
        [now apply String.eqb_eq in E | reflexivity].
    + cbn [after_reset password_reset_tokens s1 PasswordResetToken.id r].
      rewrite filter_app. cbn [filter PasswordResetToken.id].
      rewrite Z.eqb_refl. cbn [negb]. rewrite app_nil_r.
      apply forallb_filter_id. apply forallb_forall. intros x Hx.
      destruct Hwf as [_ _ _ _ _ _ _ _ _ Hseq]. specialize (Hseq x Hx).
      apply negb_true_iff. apply Z.eqb_neq. lia.
  - intros Hlate. rewrite reset_password_cases, Hlook.
    cbn [scalar PasswordResetToken.expiration r].
    apply Z.ltb_lt in Hlate. now rewrite Hlate.
Qed.

(** X10.  A reset request for an email that has no user fails with 404 and
    leaves the store unchanged. *)
Theorem password_reset_request_unknown_email `{AuthService}
        (s : Store) (email : string) (draw now : Z) :
  (forall u, In u (users s) -> User.email u <> email) ->
  routes_auth.password_reset_request email draw now s
  = (inl (HTTPException 404 EMAIL_NOT_FOUND), s).
Proof.
  intros Hno. unfold routes_auth.password_reset_request. run.
  rewrite (get_user_by_email_unknown s email Hno). run. reflexivity.
Qed.

(** X11.  Outstanding reset tokens are independent: using one of two stored
    tokens of the same user deletes that row only, and the other token
    still completes a reset afterwards. *)
Theorem reset_tokens_are_independent `{AuthService}
        (s : Store) (u : User.t) (r1 r2 : PasswordResetToken.t)
        (pw1 pw2 : string) (now1 now2 : Z) :
  wf_store s ->
  In u (users s) ->
  In r1 (password_reset_tokens s) -> In r2 (password_reset_tokens s) -> r1 <> r2 ->
  PasswordResetToken.email r1 = User.email u ->
  PasswordResetToken.email r2 = User.email u ->
  now1 <= PasswordResetToken.expiration r1 ->
  now2 <= PasswordResetToken.expiration r2 ->
  exists s1 s2 u2,
    routes_auth.reset_password (PasswordResetToken.token r1) pw1 now1 s
    = (inr "Password has been reset successfully.", s1) /\
    In r2 (password_reset_tokens s1) /\
    routes_auth.reset_password (PasswordResetToken.token r2) pw2 now2 s1
    = (inr "Password has been reset successfully.", s2) /\
    repositories_users.get_user_by_email (User.email u) s2 = (inr (Some u2), s2) /\
    User.password u2 = get_password_hash pw2.
Proof.
  intros Hwf Hu Hr1 Hr2 Hne He1 He2 Hl1 Hl2.
  pose proof (lookup_user_of_token s u Hwf Hu) as Hf.
  assert (H1 : routes_auth.reset_password (PasswordResetToken.token r1) pw1 now1 s
               = (inr "Password has been reset successfully.", after_reset s u r1 pw1 now1)).
  { rewrite reset_password_cases, (lookup_reset_token s r1 Hwf Hr1).
    apply Z.ltb_ge in Hl1. rewrite Hl1, He1, Hf. reflexivity. }
  assert (Hwf1 : wf_store (after_reset s u r1 pw1 now1)).
  { pose proof (reset_password_wf s (PasswordResetToken.token r1) pw1 now1 Hwf) as W.
    now rewrite H1 in W. }
  assert (Hr2' : In r2 (password_reset_tokens (after_reset s u r1 pw1 now1))).
  { cbn [after_reset password_reset_tokens]. apply filter_In. split; [exact Hr2|].
    apply negb_true_iff. apply Z.eqb_neq. intros Hid. apply Hne. symmetry.
    apply (NoDup_map_inj PasswordResetToken.id (password_reset_tokens s)); auto.
    apply Hwf. }
  set (g := repositories_users.flush_row (User.id u)
              (fun x => String.eqb (User.password x) (get_password_hash pw1))
              (fun x => User.set_password x (get_password_hash pw1)) now1).
  assert (Hg : forall x, User.email (g x) = User.email x).
  { intros x. unfold g, repositories_users.flush_row.
    destruct (User.id x =? User.id u); [|reflexivity].
    now destruct (String.eqb (User.password x) (get_password_hash pw1)). }
  assert (Hu1 : In (g u) (users (after_reset s u r1 pw1 now1)))
    by (cbn [after_reset users]; now apply in_map).
  pose proof (lookup_user_of_token _ (g u) Hwf1 Hu1) as Hf1. rewrite Hg in Hf1.
  exists (after_reset s u r1 pw1 now1),
         (after_reset (after_reset s u r1 pw1 now1) (g u) r2 pw2 now2).
  eexists. split; [exact H1|]. split; [exact Hr2'|]. split; [|split].
  - rewrite reset_password_cases, (lookup_reset_token _ r2 Hwf1 Hr2').
    apply Z.ltb_ge in Hl2. rewrite Hl2, He2, Hf1. reflexivity.
  - apply get_user_by_email_of_filter.
    cbn [after_reset users]. fold g. rewrite filter_map_commute.
    + change (map g (users s)) with (users (after_reset s u r1 pw1 now1)).
      rewrite Hf1. cbn [map]. reflexivity.
    + intros x. unfold repositories_users.flush_row.
      destruct (User.id x =? User.id (g u)); [|reflexivity].
      now destruct (String.eqb (User.password x) (get_password_hash pw2)).
  - unfold repositories_users.flush_row at 1. rewrite Z.eqb_refl.
    destruct (String.eqb (User.password (g u)) (get_password_hash pw2)) eqn:E;
      [now apply String.eqb_eq in E | reflexivity].
Qed.

Section password_reset_on_demo.
Import demo.

Lemma password_reset_round_trip_witness :
  exists s1,
    routes_auth.password_reset_request "alice@example.com" 5 10 store
    = (inr ("Password reset link has been sent to your email.",
            [send_password_reset_email "alice@example.com" "reset-n"]), s1) /\
    password_reset_tokens s1
    = (password_reset_tokens store
         ++ [PasswordResetToken.mk 3 "alice@example.com" "reset-n" 3610])%list /\
    users s1 = users store /\
    (3610 <= 10 + 3600 ->
     exists s2 u2,
       routes_auth.reset_password "reset-n" "new-secret" 3610 s1
       = (inr "Password has been reset successfully.", s2) /\
       repositories_users.get_user_by_email "alice@example.com" s2 = (inr (Some u2), s2) /\
       User.password u2 = get_password_hash "new-secret" /\
       password_reset_tokens s2 = password_reset_tokens store) /\
    (10 + 3600 < 3610 ->
     routes_auth.reset_password "reset-n" "new-secret" 3610 s1
     = (inl (HTTPException 400 INVALID_OR_EXPIRED_TOKEN), s1)).
Proof.
  assert (Halice : In alice (users store)) by (cbn; auto).
  assert (Hfresh : forall r, In r (password_reset_tokens store) ->
                             PasswordResetToken.token r <> generate_reset_token 5)
    by (intros r Hr; cbn in Hr; destruct Hr as [<-|[<-|[]]]; cbn; discriminate).
  exact (password_reset_round_trip store alice 5 10 3610 "new-secret"
           demo_store_wf Halice Hfresh).
Defined.

Lemma password_reset_request_unknown_email_witness :
  routes_auth.password_reset_request "ghost@example.com" 5 10 store
  = (inl (HTTPException 404 EMAIL_NOT_FOUND), store).
Proof.
  apply (password_reset_request_unknown_email store "ghost@example.com" 5 10).
  intros u Hu. cbn in Hu. destruct Hu as [<-|[<-|[]]]; cbn; discriminate.
Defined.

Lemma reset_tokens_are_independent_witness :
  exists s1 s2 u2,
    routes_auth.reset_password "reset-0" "first" 50 store_two_resets
    = (inr "Password has been reset successfully.", s1) /\
    In alice_reset_again (password_reset_tokens s1) /\
    routes_auth.reset_password "reset-again" "second" 150 s1
    = (inr "Password has been reset successfully.", s2) /\
    repositories_users.get_user_by_email "alice@example.com" s2 = (inr (Some u2), s2) /\
    User.password u2 = get_password_hash "second".
Proof.
  apply (reset_tokens_are_independent store_two_resets alice alice_reset
           alice_reset_again "first" "second" 50 150).
  - exact store_two_resets_wf.
  - cbn. auto.
  - cbn. auto.
  - cbn. auto.
  - discriminate.
  - reflexivity.
  - reflexivity.
  - cbn. lia.
  - cbn. lia.
Defined.

End password_reset_on_demo.

(** ** The schema's constraints along a run *)

Lemma confirmed_email_wf `{AuthService} (s : Store) (token : string) (now : Z) :
  wf_store s -> wf_store (snd (routes_auth.confirmed_email token now s)).
Proof.
  intros Hwf.
  unfold routes_auth.confirmed_email, repositories_users.confirmed_email,
    repositories_users.get_user_by_email, repositories_users.flush_user. run.
  destruct (get_email_from_token token) as [err|e]; [exact Hwf|]. run.
  destruct (filter (fun u => String.eqb (User.email u) e) (users s))
    as [|u [|u2 l]] eqn:Hf; try exact Hwf. run.
  destruct (User.confirmed u); [exact Hwf|]. run. rewrite Hf. run.
  cbn [snd]. apply wf_with_users_map; [| |exact Hwf]; intros x;
    now apply flush_row_keys.
Qed.

(** X12.  Every authentication route, whatever its outcome, takes a store
    that satisfies the constraints of [models.py] (primary keys, unique
    email and token columns, keys below their sequence) to a store that
    satisfies them: no route leaves two users with one email or two reset
    rows with one token. *)
Theorem auth_routes_keep_constraints `{AuthService} `{Gravatar} (s : Store) :
  wf_store s ->
  (forall body base_url now, wf_store (snd (routes_auth.signup body base_url now s))) /\
  (forall username password now,
     wf_store (snd (routes_auth.login username password now s))) /\
  (forall t now, wf_store (snd (routes_auth.refresh_token t now s))) /\
  (forall token now, wf_store (snd (routes_auth.confirmed_email token now s))) /\
  (forall email base_url, snd (routes_auth.request_email email base_url s) = s) /\
  (forall email draw now,
     wf_store (snd (routes_auth.password_reset_request email draw now s))) /\
  (forall tok pw now, wf_store (snd (routes_auth.reset_password tok pw now s))).
Proof.
  intros Hwf.
  split; [intros; now apply signup_wf|].
  split; [intros; now apply login_wf|].
  split; [intros; now apply refresh_token_wf|].
  split; [intros; now apply confirmed_email_wf|].
  split.
  { intros email base_url.
    unfold routes_auth.request_email, repositories_users.get_user_by_email. run.
    destruct (filter _ (users s)) as [|u [|u2 l]]; try reflexivity. run.
    now destruct (User.confirmed u). }
  split; [intros; now apply password_reset_request_wf|].
  intros; now apply reset_password_wf.
Qed.

(** X13.  Every contact route, whatever its outcome, keeps the constraints
    of [models.py]: contact ids, emails and phone numbers stay unique, also
    after an update that changes the email or the phone number. *)
Theorem contact_routes_keep_constraints (s : Store) (user : User.t) :
  wf_store s ->
  (forall body now, wf_store (snd (routes_contacts.create_contact body user now s))) /\
  (forall body contact_id now,
     wf_store (snd (routes_contacts.update_contact body contact_id user now s))) /\
  (forall contact_id, wf_store (snd (routes_contacts.remove_contact contact_id user s))).
Proof.
  intros Hwf.
  split; [intros; now apply create_contact_wf|].
  split; [intros; now apply update_contact_wf|].
  intros; now apply remove_contact_wf.
Qed.

Section constraints_on_demo.
Import demo.

Lemma auth_routes_keep_constraints_witness :
  wf_store (snd (routes_auth.signup (UserSchema.mk "carol" "carol@example.com" "pw")
                                    "http://testserver/" 50 store)) /\
  wf_store (snd (routes_auth.reset_password "reset-0" "new-secret" 50 store)).
Proof.
  destruct (auth_routes_keep_constraints store demo_store_wf)
    as (Hsignup & _ & _ & _ & _ & _ & Hreset).
  split; [apply Hsignup | apply Hreset].
Defined.

Lemma contact_routes_keep_constraints_witness :
  wf_store (snd (routes_contacts.update_contact
                   (ContactSchema.mk "May" "Eleven" "new@example.com" "111"
                                     (date.mk 1990 5 11)) 1 alice 50 store)) /\
  wf_store (snd (routes_contacts.remove_contact 2 alice store)).
Proof.
  destruct (contact_routes_keep_constraints store alice demo_store_wf)
    as (_ & Hupdate & Hremove).
  split; [apply Hupdate | apply Hremove].
Defined.

End constraints_on_demo.

(** ** Contacts: create, read, update, delete *)

Lemma read_by_contact_id_cases (user : User.t) (s : Store) (contact_id : Z) :
  routes_contacts.read_by_contact_id contact_id user s =
  if contact_id <? 1 then (inl RequestValidationError, s)
  else
    match filter (fun c => (Contact.id c =? contact_id)
                           && repository_contacts.owned_by user c) (contacts s) with
    | [] => (inl (HTTPException HTTP_404_NOT_FOUND (Literal "Contact not found")), s)
    | [c] => (inr c, s)
    | _ => (inl MultipleResultsFound, s)
    end.
Proof.
  unfold routes_contacts.read_by_contact_id, routes_contacts.not_found,
    repository_contacts.get_contact_id.
  destruct (contact_id <? 1); [reflexivity|]. run.
  destruct (filter _ (contacts s)) as [|c [|c2 l]]; reflexivity.
Qed.

(** Under the primary key, the lookup by id and owner finds the row. *)
Lemma filter_id_owned (user : User.t) (s : Store) (c : Contact.t) :
  wf_store s -> In c (contacts s) ->
  Contact.user_id c = Some (User.id user) ->
  filter (fun x => (Contact.id x =? Contact.id c)
                   && repository_contacts.owned_by user x) (contacts s) = [c].
Proof.
  intros Hwf Hc Hown.
  pose proof (filter_key_unique Contact.id Z.eqb Z.eqb_eq (contacts s) c
                (wf_contact_id s Hwf) Hc) as Hf.
  rewrite <- Hf.
  apply filter_ext_in. intros x Hx.
  destruct (Contact.id x =? Contact.id c) eqn:E; [|reflexivity].
  cbn. apply Z.eqb_eq in E.
  assert (x = c) as -> by
      (apply (NoDup_map_inj Contact.id (contacts s)); auto; apply Hwf).
  now apply owned_by_spec.
Qed.

Lemma filter_id_not_owned (user : User.t) (s : Store) (contact_id : Z) :
  (forall c, In c (contacts s) -> Contact.id c = contact_id ->
             Contact.user_id c <> Some (User.id user)) ->
  filter (fun x => (Contact.id x =? contact_id)
                   && repository_contacts.owned_by user x) (contacts s) = [].
Proof.
  intros Hno. induction (contacts s) as [|a l IH]; [reflexivity|].
  cbn. destruct ((Contact.id a =? contact_id) && repository_contacts.owned_by user a)
    eqn:E.
  - apply andb_true_iff in E. destruct E as [E1 E2].
    apply Z.eqb_eq in E1. apply owned_by_spec in E2.
    exfalso. apply (Hno a); auto. now left.
  - apply IH. intros c Hc. apply Hno. now right.
Qed.


(** X15.  A contact that was created can be read back by its id: the row
    carries the fields of the request, the caller as owner and a fresh id,
    and reading that id returns the same row. *)
Theorem create_then_read (s s1 : Store) (body : ContactSchema.t) (user : User.t)
        (now : Z) (c : Contact.t) :
  wf_store s -> 1 <= contacts_id_seq s ->
  routes_contacts.create_contact body user now s = (inr c, s1) ->
  routes_contacts.read_by_contact_id (Contact.id c) user s1 = (inr c, s1) /\
  (forall x, In x (contacts s) -> Contact.id x <> Contact.id c) /\
  Contact.first_name c = ContactSchema.first_name body /\
  Contact.last_name c = ContactSchema.last_name body /\
  Contact.email c = ContactSchema.email body /\
  Contact.phone_number c = ContactSchema.phone_number body /\
  Contact.birthday c = ContactSchema.birthday body /\
  Contact.user_id c = Some (User.id user).
Proof.
  intros Hwf Hseq Hcreate.
  pose proof (create_contact_wf s body user now Hwf) as Hwf1.
  rewrite Hcreate in Hwf1. cbn [snd] in Hwf1.
  destruct (create_contact_scoped user s body now) as [_ Hown].
  destruct (Hown c s1 Hcreate) as [Hin Hu].
  assert (Hc : c = Contact.mk (contacts_id_seq s) (ContactSchema.first_name body)
                              (ContactSchema.last_name body) (ContactSchema.email body)
                              (ContactSchema.phone_number body)
                              (ContactSchema.birthday body)
                              (Some now) (Some now) (Some (User.id user))).
  { unfold routes_contacts.create_contact, repository_contacts.create_contact in Hcreate.
    run. destruct (existsb _ (contacts s)); run; [discriminate|].
    now injection Hcreate as <- _. }
  assert (Hid : Contact.id c = contacts_id_seq s) by now rewrite Hc.
  split; [|split; [|rewrite Hc; repeat split]].
  - rewrite read_by_contact_id_cases, Hid.
    replace (contacts_id_seq s <? 1) with false by (symmetry; apply Z.ltb_ge; lia).
    rewrite <- Hid. now rewrite (filter_id_owned user s1 c Hwf1 Hin Hu).
  - intros x Hx. rewrite Hid. pose proof (wf_contact_seq s Hwf x Hx). lia.
Qed.

Lemma date_eqb_eq (a b : date.t) : date_eqb a b = true -> a = b.
Proof.
  destruct a, b. unfold date_eqb. cbn. intros E.
  apply andb_true_iff in E. destruct E as [E E3].
  apply andb_true_iff in E. destruct E as [E1 E2].
  apply Z.eqb_eq in E1, E2, E3. now subst.
Qed.

(** X16.  An update that went through is what a read by id returns
    afterwards: the row keeps its id, owner and creation time and carries
    the five fields of the request. *)
Theorem update_then_read (s s1 : Store) (body : ContactSchema.t) (contact_id : Z)
        (user : User.t) (now : Z) (c : Contact.t) :
  wf_store s ->
  routes_contacts.update_contact body contact_id user now s = (inr c, s1) ->
  routes_contacts.read_by_contact_id contact_id user s1 = (inr c, s1) /\
  Contact.id c = contact_id /\
  Contact.user_id c = Some (User.id user) /\
  Contact.first_name c = ContactSchema.first_name body /\
  Contact.last_name c = ContactSchema.last_name body /\
  Contact.email c = ContactSchema.email body /\
  Contact.phone_number c = ContactSchema.phone_number body /\
  Contact.birthday c = ContactSchema.birthday body /\
  exists old, In old (contacts s) /\ Contact.id old = contact_id /\
              Contact.created_at c = Contact.created_at old.
Proof.
  intros Hwf Hupdate.
  pose proof (update_contact_wf s body contact_id user now Hwf) as Hwf1.
  rewrite Hupdate in Hwf1. cbn [snd] in Hwf1.
  destruct (update_contact_scoped user s body contact_id now Hwf) as [_ Hown].
  destruct (Hown c s1 Hupdate) as [Hin Hu].
  rewrite update_contact_cases in Hupdate.
  destruct (contact_id <? 1) eqn:Hlt; [discriminate|].
  destruct (filter _ (contacts s)) as [|old [|c2 l]] eqn:Hf; try discriminate.
  assert (Hold : In old (contacts s) /\ Contact.id old = contact_id).
  { assert (Ho : In old (filter (fun c => (Contact.id c =? contact_id)
                                          && repository_contacts.owned_by user c)
                                (contacts s))) by (rewrite Hf; now left).
    apply filter_In in Ho. destruct Ho as [Ho E].
    apply andb_true_iff in E. destruct E as [E _]. apply Z.eqb_eq in E. now split. }
  destruct Hold as [Hoin Hoid].
  assert (Hfields : Contact.id c = contact_id /\
            Contact.first_name c = ContactSchema.first_name body /\
            Contact.last_name c = ContactSchema.last_name body /\
            Contact.email c = ContactSchema.email body /\
            Contact.phone_number c = ContactSchema.phone_number body /\
            Contact.birthday c = ContactSchema.birthday body /\
            Contact.created_at c = Contact.created_at old).
  { destruct (repository_contacts.same_fields old body) eqn:Hsame.
    - injection Hupdate as <- <-. unfold repository_contacts.same_fields in Hsame.
      repeat (apply andb_true_iff in Hsame; destruct Hsame as [Hsame ?]).
      repeat match goal with
             | E : String.eqb _ _ = true |- _ => apply String.eqb_eq in E
             end.
      repeat match goal with
             | E : date_eqb _ _ = true |- _ => apply date_eqb_eq in E
             end.
      repeat split; auto.
    - destruct (existsb _ (contacts s)); [discriminate|].
      injection Hupdate as <- <-. cbn.
      repeat split; auto. }
  destruct Hfields as (Hid & Hfn & Hln & Hem & Hph & Hbd & Hcr).
  split; [|repeat split; auto].
  - rewrite read_by_contact_id_cases, Hlt, <- Hid.
    now rewrite (filter_id_owned user s1 c Hwf1 Hin Hu).
  - exists old. auto.
Qed.

(** X17.  A deleted contact is gone for good: reading or deleting its id
    again answers 404, every other contact is still stored unchanged, and
    no contact was added. *)
Theorem remove_then_not_found (s s1 : Store) (contact_id : Z) (user : User.t) :
  wf_store s ->
  routes_contacts.remove_contact contact_id user s = (inr tt, s1) ->
  routes_contacts.read_by_contact_id contact_id user s1
  = (inl (HTTPException 404 (Literal "Contact not found")), s1) /\
  routes_contacts.remove_contact contact_id user s1
  = (inl (HTTPException 404 (Literal "Contact not found")), s1) /\
  (forall c, In c (contacts s1) <-> In c (contacts s) /\ Contact.id c <> contact_id).
Proof.
  intros Hwf Hremove.
  rewrite remove_contact_cases in Hremove.
  destruct (contact_id <? 1) eqn:Hlt; [discriminate|].
  destruct (filter _ (contacts s)) as [|old [|c2 l]] eqn:Hf; try discriminate.
  assert (Hoid : Contact.id old = contact_id).
  { assert (Ho : In old (filter (fun c => (Contact.id c =? contact_id)
                                          && repository_contacts.owned_by user c)
                                (contacts s))) by (rewrite Hf; now left).
    apply filter_In in Ho. destruct Ho as [_ E].
    apply andb_true_iff in E. destruct E as [E _]. now apply Z.eqb_eq in E. }
  injection Hremove as <-. rewrite Hoid.
  assert (Hrest : forall c, In c (filter (fun x => negb (Contact.id x =? contact_id))
                                         (contacts s)) <->
                            In c (contacts s) /\ Contact.id c <> contact_id).
  { intros c. rewrite filter_In, negb_true_iff, Z.eqb_neq. tauto. }
  assert (Hgone : filter (fun x => (Contact.id x =? contact_id)
                                   && repository_contacts.owned_by user x)
                         (filter (fun x => negb (Contact.id x =? contact_id))
                                 (contacts s)) = []).
  { apply filter_id_not_owned with (s := with_contacts s _).
    cbn [with_contacts contacts]. intros c Hc Hid. apply Hrest in Hc. tauto. }
  split; [|split].
  - rewrite read_by_contact_id_cases, Hlt. cbn [with_contacts contacts].
    now rewrite Hgone.
  - rewrite remove_contact_cases, Hlt. cbn [with_contacts contacts].
    now rewrite Hgone.
  - exact Hrest.
Qed.

Section contacts_on_demo.
Import demo.


Lemma create_then_read_witness :
  let body := ContactSchema.mk "June" "Six" "june6@example.com" "444" (date.mk 1999 6 6) in
  let c := Contact.mk 4 "June" "Six" "june6@example.com" "444" (date.mk 1999 6 6)
                      (Some 50) (Some 50) (Some 1) in
  let s1 := snd (routes_contacts.create_contact body alice 50 store) in
  routes_contacts.read_by_contact_id (Contact.id c) alice s1 = (inr c, s1) /\
  (forall x, In x (contacts store) -> Contact.id x <> Contact.id c) /\
  Contact.first_name c = ContactSchema.first_name body /\
  Contact.last_name c = ContactSchema.last_name body /\
  Contact.email c = ContactSchema.email body /\
  Contact.phone_number c = ContactSchema.phone_number body /\
  Contact.birthday c = ContactSchema.birthday body /\
  Contact.user_id c = Some (User.id alice).
Proof.
  intros body c s1.
  apply (create_then_read store s1 body alice 50 c).
  - exact demo_store_wf.
  - cbn. lia.
  - reflexivity.
Defined.

Lemma update_then_read_witness :
  let body := ContactSchema.mk "May" "Twelve" "may12@example.com" "111"
                               (date.mk 1990 5 12) in
  exists c s1,
    routes_contacts.update_contact body 1 alice 50 store = (inr c, s1) /\
    routes_contacts.read_by_contact_id 1 alice s1 = (inr c, s1) /\
    Contact.id c = 1 /\
    Contact.user_id c = Some (User.id alice) /\
    Contact.first_name c = ContactSchema.first_name body /\
    Contact.last_name c = ContactSchema.last_name body /\
    Contact.email c = ContactSchema.email body /\
    Contact.phone_number c = ContactSchema.phone_number body /\
    Contact.birthday c = ContactSchema.birthday body /\
    exists old, In old (contacts store) /\ Contact.id old = 1 /\
                Contact.created_at c = Contact.created_at old.
Proof.
  intros body. eexists. eexists.
  assert (Hupdate : routes_contacts.update_contact body 1 alice 50 store
                    = (inr (repository_contacts.assign may_11 body 50),
                       snd (routes_contacts.update_contact body 1 alice 50 store)))
    by reflexivity.
  split; [exact Hupdate|].
  apply (update_then_read store _ body 1 alice 50 _ demo_store_wf Hupdate).
Defined.

Lemma remove_then_not_found_witness :
  let s1 := snd (routes_contacts.remove_contact 2 alice store) in
  routes_contacts.read_by_contact_id 2 alice s1
  = (inl (HTTPException 404 (Literal "Contact not found")), s1) /\
  routes_contacts.remove_contact 2 alice s1
  = (inl (HTTPException 404 (Literal "Contact not found")), s1) /\
  (forall c, In c (contacts s1) <-> In c (contacts store) /\ Contact.id c <> 2).
Proof.
  intros s1.
  apply (remove_then_not_found store s1 2 alice).
  - exact demo_store_wf.
  - reflexivity.
Defined.

End contacts_on_demo.

(** ** Pagination *)






(** ** Search *)










(** ** The birthday window *)

(** X21.  No upcoming birthday is missed: for any calendar date [today]
    and any [k] from 0 to 7, a contact of the caller whose birthday has the
    month and day of [today + k days] is in the answer, also when the week
    runs into the next month or the next year. *)
Theorem birthday_within_week_returned (s : Store) (user : User.t) (today : date.t)
        (k : nat) (c : Contact.t) :
  date.valid today -> (k <= 7)%nat ->
  In c (contacts s) ->
  Contact.user_id c = Some (User.id user) ->
  date.month (Contact.birthday c) = date.month (date.add_days k today) ->
  date.day (Contact.birthday c) = date.day (date.add_days k today) ->
  exists cs, routes_contacts.read_birthday today user s = (inr cs, s) /\ In c cs.
Proof.
  intros Hv Hk Hin Hown Hm Hd. eexists. split; [reflexivity|].
  apply filter_In. split; [exact Hin|].
  apply andb_true_iff. split; [now apply owned_by_spec|].
  unfold repository_contacts.birthday_in_window.
  destruct (add_days_short k today Hv ltac:(lia)) as [Hkin Hkout].
  destruct (add_days_short 7 today Hv ltac:(lia)) as [_ H7out].
  change (Z.of_nat 7) with 7 in *.
  destruct (Z_le_gt_dec (date.day today + Z.of_nat k)
                        (date.days_in_month (date.year today) (date.month today)))
    as [Hle|Hgt].
  - rewrite (Hkin Hle) in Hm, Hd. cbn in Hm, Hd. rewrite Hm, Hd, Z.eqb_refl.
    replace (date.day today + Z.of_nat k >=? date.day today) with true
      by (symmetry; apply Z.geb_le; lia).
    reflexivity.
  - destruct (Hkout ltac:(lia)) as [Hmk Hdk].
    destruct (H7out ltac:(lia)) as [Hm7 Hd7].
    rewrite Hm, Hd, Hmk, Hdk, Hm7, Hd7, Z.eqb_refl.
    replace (_ <=? _) with true by (symmetry; apply Z.leb_le; lia).
    apply orb_true_r.
Qed.

(** X22.  When [today + 7 days] is still in the month of [today], the
    answer is every contact of the caller born in that month, whatever the
    day: the two branches of the filter, "day >= today's" and
    "day <= the day a week ahead", cover the whole month, so birthdays
    already past and birthdays more than a week ahead are returned too. *)
Theorem birthday_window_same_month (s : Store) (user : User.t) (today : date.t) :
  date.valid today ->
  date.day today + 7 <= date.days_in_month (date.year today) (date.month today) ->
  routes_contacts.read_birthday today user s
  = (inr (filter (fun c => repository_contacts.owned_by user c
                           && (date.month (Contact.birthday c) =? date.month today))
                 (contacts s)), s).
Proof.
  intros Hv Hroom.
  unfold routes_contacts.read_birthday, repository_contacts.get_contact_birthday. run.
  f_equal. f_equal. apply filter_ext. intros c. f_equal.
  unfold repository_contacts.birthday_in_window.
  destruct (add_days_short 7 today Hv ltac:(lia)) as [H7in _].
  change (Z.of_nat 7) with 7 in *. rewrite (H7in Hroom). cbn [date.month date.day].
  destruct (date.month (Contact.birthday c) =? date.month today); [|reflexivity].
  cbn [andb].
  destruct (Z_le_gt_dec (date.day today) (date.day (Contact.birthday c))) as [Hle|Hgt].
  - replace (date.day (Contact.birthday c) >=? date.day today) with true
      by (symmetry; apply Z.geb_le; lia).
    reflexivity.
  - replace (date.day (Contact.birthday c) <=? date.day today + 7) with true
      by (symmetry; apply Z.leb_le; lia).
    apply orb_true_r.
Qed.

Lemma birthday_within_week_returned_witness :
  exists cs,
    routes_contacts.read_birthday (date.mk 2024 4 30) demo.alice demo.store
    = (inr cs, demo.store) /\ In demo.may_4 cs.
Proof.
  apply (birthday_within_week_returned demo.store demo.alice (date.mk 2024 4 30) 4
           demo.may_4).
  - unfold date.valid. cbn. lia.
  - lia.
  - cbn. auto.
  - reflexivity.
  - reflexivity.
  - reflexivity.
Defined.

Lemma birthday_window_same_month_witness :
  routes_contacts.read_birthday (date.mk 2024 5 10) demo.alice demo.store
  = (inr (filter (fun c => repository_contacts.owned_by demo.alice c
                           && (date.month (Contact.birthday c) =? 5))
                 (contacts demo.store)), demo.store) /\
  filter (fun c => repository_contacts.owned_by demo.alice c
                   && (date.month (Contact.birthday c) =? 5))
         (contacts demo.store) = [demo.may_11; demo.may_4].
Proof.
  split; [|reflexivity].
  apply (birthday_window_same_month demo.store demo.alice (date.mk 2024 5 10)).
  - unfold date.valid. cbn. lia.
  - cbn. lia.
Defined.

(** ** Refresh calls that never reach the comparison *)

(** X23.  A refresh call whose token the service refuses ends with the
    service's exception; one whose token decodes to an email that has no
    user ends in an [AttributeError] on [user.refresh_token], not in a 401.
    Neither changes the store. *)
Theorem refresh_token_rejections `{AuthService} (s : Store) (t : string) (now : Z) :
  (forall err, decode_refresh_token t = inl err ->
               routes_auth.refresh_token t now s = (inl err, s)) /\
  (forall e, decode_refresh_token t = inr e ->
             (forall u, In u (users s) -> User.email u <> e) ->
             routes_auth.refresh_token t now s
             = (inl (AttributeError "refresh_token"), s)).
Proof.
  split.
  - intros err Hd. unfold routes_auth.refresh_token. run. now rewrite Hd.
  - intros e Hd Hno. unfold routes_auth.refresh_token. run. rewrite Hd. run.
    rewrite (get_user_by_email_unknown s e Hno). run. reflexivity.
Qed.

Section refresh_rejections_on_demo.
Import demo.

Lemma refresh_token_rejections_witness :
  routes_auth.refresh_token "#forged" 50 store
  = (inl (HTTPException 401 (Literal "Could not validate credentials")), store) /\
  routes_auth.refresh_token "ghost@example.com#refresh#early" 50 store
  = (inl (AttributeError "refresh_token"), store).
Proof.
  destruct (refresh_token_rejections store "#forged" 50) as [Hbad _].
  destruct (refresh_token_rejections store "ghost@example.com#refresh#early" 50)
    as [_ Hnouser].
  split.
  - apply Hbad. reflexivity.
  - apply (Hnouser "ghost@example.com"); [reflexivity|].
    intros u Hu. cbn in Hu. destruct Hu as [<-|[<-|[]]]; cbn; discriminate.
Defined.

End refresh_rejections_on_demo.
